(** * Verification of the provider dispatch core of aicommit

    Shallow embedding of [lib/ai-providers.js] (the "thorough" prompt) and of
    its twin file (the "concise" prompt), together with the key lookup of
    [lib/config.js].  JavaScript strings are modelled as ASCII strings (one
    character per UTF-16 code unit), JSON numbers as integers. *)

From Stdlib Require Import ZArith String Ascii List Bool Lia.
From Stdlib Require Import DecimalString.
Import ListNotations.
Open Scope string_scope.
Set Warnings "-register-all".

(** ** JavaScript values as they reach the code *)

(** Values produced by [JSON.parse] (bodies of HTTP responses, SDK results,
    the config file). *)
Inductive json : Type :=
| JNull
| JBool (b : bool)
| JNum (z : Z)
| JStr (s : string)
| JArr (items : list json)
| JObj (fields : list (string * json)).

(** A property read yields [undefined] or a value. *)
Inductive jsval : Type :=
| Undef
| Val (j : json).

(** Property keys in a member expression: [.name] or [[i]]. *)
Inductive key : Type :=
| Field (name : string)
| Idx (i : nat).

Definition nat_to_string (n : nat) : string :=
  NilEmpty.string_of_uint (Nat.to_uint n).

Definition Z_to_string (z : Z) : string :=
  NilZero.string_of_int (Z.to_int z).

Definition key_name (k : key) : string :=
  match k with
  | Field n => n
  | Idx i => nat_to_string i
  end.

(** [JSON.parse] keeps the last of duplicated keys. *)
Fixpoint lookup_field (k : string) (fs : list (string * json)) : jsval :=
  match fs with
  | [] => Undef
  | (k', v) :: rest =>
      match lookup_field k rest with
      | Undef => if String.eqb k k' then Val v else Undef
      | found => found
      end
  end.

(** JavaScript truthiness, used by [||] and [!]. *)
Definition truthy (v : jsval) : bool :=
  match v with
  | Undef | Val JNull => false
  | Val (JBool b) => b
  | Val (JNum z) => negb (Z.eqb z 0)
  | Val (JStr s) => negb (String.eqb s EmptyString)
  | Val (JArr _) | Val (JObj _) => true
  end.

(** [a || b] *)
Definition js_or (a b : jsval) : jsval := if truthy a then a else b.

(** [String(v)] for the values an error message can be built from. *)
Fixpoint json_to_string (j : json) : string :=
  match j with
  | JNull => "null"
  | JBool true => "true"
  | JBool false => "false"
  | JNum z => Z_to_string z
  | JStr s => s
  | JArr items =>
      let fix join (l : list json) : string :=
          match l with
          | [] => EmptyString
          | [JNull] => EmptyString
          | [x] => json_to_string x
          | JNull :: rest => "," ++ join rest
          | x :: rest => json_to_string x ++ "," ++ join rest
          end in
      join items
  | JObj _ => "[object Object]"
  end.

Definition jsval_to_string (v : jsval) : string :=
  match v with
  | Undef => "undefined"
  | Val j => json_to_string j
  end.

(** ** Exceptions

    One constructor per [throw] site of [ai-providers.js]; [Plain] is any
    other [Error] ([TypeError], [SyntaxError], an SDK or fetch error, or the
    [new Error(...)] of the Gemini status check), with its [message]. *)
Inductive backend : Type := Claude | OpenAI | Gemini.

Inductive exn : Type :=
| UnknownProvider (provider : string)
| ApiKeyNotFound (b : backend)
| ApiError (b : backend) (inner : string)
| Plain (msg : string).

Definition api_name (b : backend) : string :=
  match b with Claude => "Claude" | OpenAI => "OpenAI" | Gemini => "Gemini" end.

Definition key_owner (b : backend) : string :=
  match b with Claude => "Anthropic" | OpenAI => "OpenAI" | Gemini => "Gemini" end.

(** The [message] of each thrown error. *)
Definition exn_message (e : exn) : string :=
  match e with
  | UnknownProvider p => "Unknown provider: " ++ p
  | ApiKeyNotFound b => key_owner b ++ " API key not found"
  | ApiError b inner => api_name b ++ " API error: " ++ inner
  | Plain msg => msg
  end.

(** Synchronous JavaScript evaluation: a value or a thrown error. *)
Inductive throws (A : Type) : Type :=
| Ret (a : A)
| Throw (e : exn).
Arguments Ret {A} a.
Arguments Throw {A} e.

Definition tbind {A B} (m : throws A) (k : A -> throws B) : throws B :=
  match m with
  | Ret a => k a
  | Throw e => Throw e
  end.

(** Member access [v.name] / [v[i]], with the [TypeError] V8 raises on
    [undefined] and [null]. *)
Definition get (v : jsval) (k : key) : throws jsval :=
  match v with
  | Undef =>
      Throw (Plain ("Cannot read properties of undefined (reading '" ++ key_name k ++ "')"))
  | Val JNull =>
      Throw (Plain ("Cannot read properties of null (reading '" ++ key_name k ++ "')"))
  | Val (JObj fs) => Ret (lookup_field (key_name k) fs)
  | Val (JArr items) =>
      match k with
      | Idx i => Ret (match nth_error items i with Some x => Val x | None => Undef end)
      | Field "length" => Ret (Val (JNum (Z.of_nat (List.length items))))
      | Field _ => Ret Undef
      end
  | Val (JStr s) =>
      match k with
      | Idx i => Ret (match String.get i s with
                      | Some c => Val (JStr (String c EmptyString))
                      | None => Undef
                      end)
      | Field "length" => Ret (Val (JNum (Z.of_nat (String.length s))))
      | Field _ => Ret Undef
      end
  | Val _ => Ret Undef
  end.

(** Optional chaining [v?.name]: [undefined] when [v] is nullish. *)
Definition opt_get (v : jsval) (k : key) : throws jsval :=
  match v with
  | Undef | Val JNull => Ret Undef
  | _ => get v k
  end.

(** A member chain [v.k1.k2...]. *)
Fixpoint read_path (v : jsval) (p : list key) : throws jsval :=
  match p with
  | [] => Ret v
  | k :: rest => tbind (get v k) (fun v' => read_path v' rest)
  end.

(** ** [String.prototype.trim] on ASCII: tab, LF, VT, FF, CR and space. *)
Definition is_ws (c : ascii) : bool :=
  let n := nat_of_ascii c in
  (Nat.leb 9 n && Nat.leb n 13) || Nat.eqb n 32.

Fixpoint ltrim (s : string) : string :=
  match s with
  | EmptyString => EmptyString
  | String c rest => if is_ws c then ltrim rest else s
  end.

Fixpoint drop_ws (l : list ascii) : list ascii :=
  match l with
  | [] => []
  | c :: rest => if is_ws c then drop_ws rest else l
  end.

Definition rtrim (s : string) : string :=
  string_of_list_ascii (rev (drop_ws (rev (list_ascii_of_string s)))).

Definition trim (s : string) : string := rtrim (ltrim s).

(** [expr.trim()] where [expr] is the source text of the receiver. *)
Definition call_trim (expr : string) (v : jsval) : throws string :=
  match v with
  | Val (JStr s) => Ret (trim s)
  | Undef | Val JNull => tbind (get v (Field "trim")) (fun _ => Throw (Plain EmptyString))
  | Val _ => Throw (Plain (expr ++ ".trim is not a function"))
  end.

(** ** The prompt templates ([buildPrompt])

    [Thorough] is the template of [lib/ai-providers.js], [Concise] the one of
    its twin file; the two files are otherwise identical. *)
Inductive style : Type := Thorough | Concise.

Definition dq : string := String (ascii_of_nat 34) EmptyString.

Definition role_framing (st : style) : string :=
  match st with
  | Thorough => "You are an expert developer writing a detailed git commit message. Analyze the git diff carefully and generate a professional, comprehensive commit message.

"
  | Concise => "You are an expert developer writing git commit messages. Analyze the git diff and generate an appropriate commit message.

"
  end.

Definition size_scaling (st : style) : string :=
  match st with
  | Thorough => EmptyString
  | Concise => "## IMPORTANT: SCALE MESSAGE SIZE TO CHANGE SIZE

- SMALL changes (1-10 lines, simple edits): Just the summary line, no body needed
- MEDIUM changes (10-50 lines, single feature): Summary + 1-2 sentence description
- LARGE changes (50+ lines, multiple features): Full format with bullet points

Do NOT over-explain simple changes. A one-line fix deserves a one-line commit message.

"
  end.

Definition output_format (st : style) : string :=
  match st with
  | Thorough => "## OUTPUT FORMAT (Conventional Commits):

<type>(<scope>): <concise summary describing the main change>

<paragraph explaining the motivation, context, and overall approach - 2-4 sentences>

Key changes:
- <specific technical change 1>
- <specific technical change 2>
- <specific technical change 3>
- ... (list ALL significant changes)

[Optional sections if applicable:]

Testing:
- <what was tested>

Fixes:
- <specific bug/issue fixed>

Breaking changes:
- <what breaks and how to migrate>

"
  | Concise => "## OUTPUT FORMAT (Conventional Commits):

For SMALL changes:
<type>(<scope>): <concise summary describing the change>

For MEDIUM changes:
<type>(<scope>): <concise summary>

<1-2 sentences explaining the change>

For LARGE changes only:
<type>(<scope>): <concise summary>

<paragraph explaining motivation and approach>

Key changes:
- <change 1>
- <change 2>
- ...

[Optional: Testing/Fixes/Breaking changes sections only if truly relevant]

"
  end.

Definition commit_types (st : style) : string :=
  match st with
  | Thorough => "## COMMIT TYPES:
- feat: New feature or significant enhancement
- fix: Bug fix
- refactor: Code restructuring without changing behavior
- docs: Documentation only
- style: Formatting, whitespace (no logic change)
- test: Adding/updating tests
- chore: Build, config, tooling changes
- perf: Performance improvements

"
  | Concise => "## COMMIT TYPES:
- feat: New feature or significant enhancement
- fix: Bug fix
- refactor: Code restructuring without changing behavior
- docs: Documentation only
- style: Formatting, whitespace (no logic change)
- test: Adding/updating tests
- chore: Build, config, tooling changes
- perf: Performance improvements

"
  end.

Definition critical_rules (st : style) : string :=
  match st with
  | Thorough => "## CRITICAL RULES:
1. NEVER write generic messages like " ++ dq ++ "Update files" ++ dq ++ " or " ++ dq ++ "Make changes" ++ dq ++ "
2. The summary line must describe WHAT specifically changed (max 72 chars)
3. Analyze the ACTUAL code changes - mention specific functions, components, variables
4. Explain WHY the change was made, not just what files were touched
5. Group related changes logically in the bullet points
6. Use technical terminology appropriate to the codebase
7. If there are multiple distinct changes, mention all of them
8. Use present tense imperatives: " ++ dq ++ "Add" ++ dq ++ ", " ++ dq ++ "Fix" ++ dq ++ ", " ++ dq ++ "Refactor" ++ dq ++ ", " ++ dq ++ "Update" ++ dq ++ "
9. Be specific: instead of " ++ dq ++ "improve code" ++ dq ++ ", say " ++ dq ++ "extract validation logic into separate helper function" ++ dq ++ "
10. If the diff shows HTML/CSS/JS changes together, describe the feature being built, not just " ++ dq ++ "update HTML, JS, CSS" ++ dq ++ "

"
  | Concise => "## CRITICAL RULES:
1. MATCH commit message length to change complexity - small changes get short messages
2. NEVER write generic messages like " ++ dq ++ "Update files" ++ dq ++ " or " ++ dq ++ "Make changes" ++ dq ++ "
3. Summary line: WHAT changed specifically (max 72 chars)
4. Use present tense imperatives: " ++ dq ++ "Add" ++ dq ++ ", " ++ dq ++ "Fix" ++ dq ++ ", " ++ dq ++ "Refactor" ++ dq ++ ", " ++ dq ++ "Update" ++ dq ++ "
5. Be specific but concise - don't pad with unnecessary context
6. OUTPUT PLAIN TEXT ONLY - no markdown formatting, no backticks around code names
7. Do NOT repeat information or state the obvious
8. Skip " ++ dq ++ "Key changes" ++ dq ++ " section if there's only 1-2 changes - just describe them in the summary

"
  end.

Definition examples (st : style) : string :=
  match st with
  | Thorough => "## EXAMPLE OF GOOD COMMIT:

refactor(auth): simplify token validation and fix session handling

Restructure authentication flow to improve maintainability and fix
several edge cases in session management that caused users to be
unexpectedly logged out.

Key changes:
- Extract token validation into dedicated validateToken() helper
- Replace synchronous localStorage calls with async wrapper
- Fix race condition in concurrent API requests during token refresh
- Add null checks for user context in protected routes
- Remove deprecated sessionStorage fallback code

Fixes:
- Users no longer logged out when opening multiple tabs
- Token refresh no longer fails silently on slow connections

"
  | Concise => "## EXAMPLES:

SMALL change (good):
fix(api): handle null response in getUserData

MEDIUM change (good):
feat(auth): add remember-me checkbox to login form

Add persistent session option that stores auth token in localStorage
instead of sessionStorage when user checks " ++ dq ++ "remember me" ++ dq ++ ".

LARGE change (good):
refactor(auth): simplify token validation and fix session handling

Restructure authentication flow to improve maintainability and fix
edge cases in session management.

Key changes:
- Extract token validation into validateToken() helper
- Fix race condition in concurrent API requests during token refresh
- Add null checks for user context in protected routes

"
  end.

Definition diff_header (st : style) : string :=
  match st with
  | Thorough => "## GIT DIFF TO ANALYZE:

"
  | Concise => "## GIT DIFF TO ANALYZE:

"
  end.

Definition closing (st : style) : string :=
  match st with
  | Thorough => "

Generate the commit message now. Be thorough and specific."
  | Concise => "

Generate an appropriately sized commit message. Keep it concise."
  end.

(** The template literal, section by section, with [${diff}] spliced in. *)
Definition buildPrompt (st : style) (diff : string) : string :=
  role_framing st ++ size_scaling st ++ output_format st ++ commit_types st
  ++ critical_rules st ++ examples st ++ diff_header st ++ diff ++ closing st.

(** ** Diff bounding ([DIFF_LIMITS] and the head of [generateCommitMessage]) *)

(** Names every plain object inherits from [Object.prototype]; reading one of
    them on [DIFF_LIMITS] yields a function (or [Object.prototype] itself for
    [__proto__]), not [undefined]. *)
Definition object_prototype_keys : list string :=
  ["constructor"; "__defineGetter__"; "__defineSetter__"; "hasOwnProperty";
   "__lookupGetter__"; "__lookupSetter__"; "isPrototypeOf";
   "propertyIsEnumerable"; "toString"; "valueOf"; "__proto__";
   "toLocaleString"].

(** A limit is a number, or an inherited function/object (truthy, and
    converting to [NaN] in arithmetic). *)
Inductive limit_val : Type :=
| LNum (n : Z)
| LNonNumeric.

(** [DIFF_LIMITS[provider]] *)
Definition DIFF_LIMITS (provider : string) : option limit_val :=
  if String.eqb provider "claude" then Some (LNum 100000)
  else if String.eqb provider "openai" then Some (LNum 80000)
  else if String.eqb provider "gemini" then Some (LNum 25000)
  else if existsb (String.eqb provider) object_prototype_keys then Some LNonNumeric
  else None.

(** [const limit = DIFF_LIMITS[provider] || 50000;] *)
Definition diff_limit (provider : string) : limit_val :=
  match DIFF_LIMITS provider with
  | Some (LNum n) => if Z.eqb n 0 then LNum 50000 else LNum n
  | Some LNonNumeric => LNonNumeric
  | None => LNum 50000
  end.

(** [diff.substring(0, limit)]: the end index is clamped to [[0, length]];
    a non-numeric limit converts to [NaN], i.e. to 0. *)
Definition substring0 (diff : string) (limit : limit_val) : string :=
  match limit with
  | LNum n => substring 0 (Z.to_nat n) diff
  | LNonNumeric => EmptyString
  end.

(** [diff.length > limit]; any comparison with [NaN] is false. *)
Definition length_gt (diff : string) (limit : limit_val) : bool :=
  match limit with
  | LNum n => Z.ltb n (Z.of_nat (String.length diff))
  | LNonNumeric => false
  end.

(** The bounding step as a function: the truncated diff and whether the
    truncation advisory is printed. *)
Definition bound (diff provider : string) : string * bool :=
  let limit := diff_limit provider in
  (substring0 diff limit, length_gt diff limit).

(** ** Observable effects and the dispatch monad *)

(** [console.log] lines and network requests, in order.  The two advisory
    lines are rendered from the recorded provider, length and limit. *)
Inductive event : Type :=
| LargeDiffWarning (provider : string) (original_length : nat) (limit : limit_val)
| SplitTip
| NetworkCall (b : backend) (apiKey : jsval) (prompt : string).

(** A computation yields the events it emitted and its completion. *)
Definition M (A : Type) : Type := (list event * throws A)%type.

Definition ret {A} (a : A) : M A := ([], Ret a).
Definition raise {A} (e : exn) : M A := ([], Throw e).
Definition lift {A} (m : throws A) : M A := ([], m).
Definition emit (evs : list event) : M unit := (evs, Ret tt).

Definition bind {A B} (m : M A) (k : A -> M B) : M B :=
  match m with
  | (t, Ret a) => let '(t', r) := k a in ((t ++ t')%list, r)
  | (t, Throw e) => (t, Throw e)
  end.

(** [try { m } catch (error) { h(error) }] *)
Definition catch {A} (m : M A) (h : exn -> M A) : M A :=
  match m with
  | (t, Throw e) => let '(t', r) := h e in ((t ++ t')%list, r)
  | ok => ok
  end.

Notation "x <- m ;; k" := (bind m (fun x => k))
  (at level 61, m at next level, right associativity).

(** ** The outside world: environment and network layer *)

Record response : Type := mkResponse {
  status : Z;
  body : throws json    (** what [response.json()] settles to *)
}.

(** [response.ok] *)
Definition ok (r : response) : bool := Z.leb 200 (status r) && Z.leb (status r) 299.

Inductive sdk_outcome : Type :=
| SdkRejects (msg : string)
| SdkResolves (message : json).

Inductive fetch_outcome : Type :=
| FetchRejects (msg : string)
| FetchResolves (r : response).

Record world : Type := mkWorld {
  env : string -> option string;                        (** [process.env] *)
  anthropic_create : jsval -> string -> sdk_outcome;    (** [anthropic.messages.create] *)
  openai_create : jsval -> string -> sdk_outcome;       (** [openai.chat.completions.create] *)
  gemini_fetch : jsval -> string -> fetch_outcome       (** [fetch] of [...:generateContent?key=] *)
}.

(** The config object; only [config.apiKeys] is read here. *)
Record config : Type := mkConfig { apiKeys : jsval }.

Definition sdk_result (o : sdk_outcome) : throws json :=
  match o with
  | SdkRejects msg => Throw (Plain msg)
  | SdkResolves m => Ret m
  end.

Definition fetch_result (o : fetch_outcome) : throws response :=
  match o with
  | FetchRejects msg => Throw (Plain msg)
  | FetchResolves r => Ret r
  end.

Section Dispatch.

Variable w : world.

Definition env_val (name : string) : jsval :=
  match env w name with
  | Some s => Val (JStr s)
  | None => Undef
  end.

(** One awaited network request: recorded, then settled by the world. *)
Definition request {A} (ev : event) (r : throws A) : M A := ([ev], r).

Definition generateWithClaude (st : style) (diff : string) (config : config) : M string :=
  cfg <- lift (opt_get (apiKeys config) (Field "anthropic")) ;;
  let apiKey := js_or cfg (env_val "ANTHROPIC_API_KEY") in
  if negb (truthy apiKey) then raise (ApiKeyNotFound Claude) else
  let prompt := buildPrompt st diff in
  catch
    (message <- request (NetworkCall Claude apiKey prompt)
                  (sdk_result (anthropic_create w apiKey prompt)) ;;
     lift (tbind (read_path (Val message) [Field "content"; Idx 0; Field "text"])
                 (call_trim "message.content[0].text")))
    (fun error => raise (ApiError Claude (exn_message error))).

Definition generateWithOpenAI (st : style) (diff : string) (config : config) : M string :=
  cfg <- lift (opt_get (apiKeys config) (Field "openai")) ;;
  let apiKey := js_or cfg (env_val "OPENAI_API_KEY") in
  if negb (truthy apiKey) then raise (ApiKeyNotFound OpenAI) else
  let prompt := buildPrompt st diff in
  catch
    (response <- request (NetworkCall OpenAI apiKey prompt)
                   (sdk_result (openai_create w apiKey prompt)) ;;
     lift (tbind (read_path (Val response)
                    [Field "choices"; Idx 0; Field "message"; Field "content"])
                 (call_trim "response.choices[0].message.content")))
    (fun error => raise (ApiError OpenAI (exn_message error))).

Definition generateWithGemini (st : style) (diff : string) (config : config) : M string :=
  cfg <- lift (opt_get (apiKeys config) (Field "gemini")) ;;
  let apiKey := js_or cfg (env_val "GEMINI_API_KEY") in
  if negb (truthy apiKey) then raise (ApiKeyNotFound Gemini) else
  let prompt := buildPrompt st diff in
  catch
    (response <- request (NetworkCall Gemini apiKey prompt)
                   (fetch_result (gemini_fetch w apiKey prompt)) ;;
     data <- lift (body response) ;;
     _ <- (if negb (ok response) then
             err <- lift (get (Val data) (Field "error")) ;;
             m <- lift (opt_get err (Field "message")) ;;
             raise (Plain (jsval_to_string
                             (js_or m (Val (JStr "Gemini API request failed")))))
           else ret tt) ;;
     lift (tbind (read_path (Val data)
                    [Field "candidates"; Idx 0; Field "content"; Field "parts"; Idx 0; Field "text"])
                 (call_trim "data.candidates[0].content.parts[0].text")))
    (fun error => raise (ApiError Gemini (exn_message error))).

Definition generateCommitMessage (st : style) (diff provider : string) (config : config) : M string :=
  let limit := diff_limit provider in
  let truncatedDiff := substring0 diff limit in
  _ <- (if length_gt diff limit
        then emit [LargeDiffWarning provider (String.length diff) limit; SplitTip]
        else ret tt) ;;
  if String.eqb provider "claude" then generateWithClaude st truncatedDiff config
  else if String.eqb provider "openai" then generateWithOpenAI st truncatedDiff config
  else if String.eqb provider "gemini" then generateWithGemini st truncatedDiff config
  else raise (UnknownProvider provider).

End Dispatch.

(** ** Vocabulary of the statements *)

Definition provider_name (b : backend) : string :=
  match b with Claude => "claude" | OpenAI => "openai" | Gemini => "gemini" end.

(** The [config.apiKeys] field and the environment variable of a backend. *)
Definition key_field (b : backend) : string :=
  match b with Claude => "anthropic" | OpenAI => "openai" | Gemini => "gemini" end.

Definition env_name (b : backend) : string :=
  match b with
  | Claude => "ANTHROPIC_API_KEY"
  | OpenAI => "OPENAI_API_KEY"
  | Gemini => "GEMINI_API_KEY"
  end.

(** The value of [config.apiKeys?.<field>]. *)
Definition config_entry (config : config) (b : backend) : jsval :=
  match opt_get (apiKeys config) (Field (key_field b)) with
  | Ret v => v
  | Throw _ => Undef
  end.

(** The key a backend function ends up with: [config || env]. *)
Definition resolved_key (w : world) (config : config) (b : backend) : jsval :=
  js_or (config_entry config b) (env_val w (env_name b)).

Definition generateWith (w : world) (b : backend) : style -> string -> config -> M string :=
  match b with
  | Claude => generateWithClaude w
  | OpenAI => generateWithOpenAI w
  | Gemini => generateWithGemini w
  end.

(** The advisory lines the bounding step prints. *)
Definition advisory (diff provider : string) : list event :=
  if snd (bound diff provider)
  then [LargeDiffWarning provider (String.length diff) (diff_limit provider); SplitTip]
  else [].

(** The network requests in a trace. *)
Fixpoint net_calls (t : list event) : list (backend * jsval * string) :=
  match t with
  | [] => []
  | NetworkCall b k p :: rest => (b, k, p) :: net_calls rest
  | _ :: rest => net_calls rest
  end.

Definition infix (x y : string) : Prop := exists pre suf, y = pre ++ x ++ suf.

(** Whether a thrown error is one of the three documented kinds. *)
Definition documented (e : exn) : bool :=
  match e with
  | UnknownProvider _ | ApiKeyNotFound _ | ApiError _ _ => true
  | Plain _ => false
  end.

(** Concrete worlds for evaluating the dispatch: an environment given by a
    list of bindings, and a network layer stubbed with fixed replies. *)
Fixpoint env_of (bindings : list (string * string)) (name : string) : option string :=
  match bindings with
  | [] => None
  | (n, v) :: rest => if String.eqb n name then Some v else env_of rest name
  end.

Definition stub_world (e : string -> option string) (m_claude m_openai : json)
    (r_gemini : response) : world :=
  mkWorld e (fun _ _ => SdkResolves m_claude) (fun _ _ => SdkResolves m_openai)
    (fun _ _ => FetchResolves r_gemini).

Fixpoint replicate (n : nat) (c : ascii) : string :=
  match n with
  | O => EmptyString
  | S n' => String c (replicate n' c)
  end.

(** [catch (error) { throw new Error(`<Api> API error: ${error.message}`) }]
    applied to a settled inner computation. *)
Definition wrap (b : backend) (r : throws string) : throws string :=
  match r with
  | Ret s => Ret s
  | Throw e => Throw (ApiError b (exn_message e))
  end.

Definition claude_path : list key := [Field "content"; Idx 0; Field "text"].
Definition openai_path : list key := [Field "choices"; Idx 0; Field "message"; Field "content"].
Definition gemini_path : list key :=
  [Field "candidates"; Idx 0; Field "content"; Field "parts"; Idx 0; Field "text"].

(** The Gemini status check, evaluated on the parsed body. *)
Definition gemini_status_error (data : json) : throws string :=
  tbind (get (Val data) (Field "error")) (fun err =>
  tbind (opt_get err (Field "message")) (fun m =>
  Throw (Plain (jsval_to_string (js_or m (Val (JStr "Gemini API request failed"))))))).

(** For a backend: the transport failure of its request, the parsed
    success body it reads the text from, and the reading of that text. *)
Definition transport_error (w : world) (b : backend) (k : jsval) (prompt : string) : option string :=
  match b with
  | Claude => match anthropic_create w k prompt with SdkRejects m => Some m | _ => None end
  | OpenAI => match openai_create w k prompt with SdkRejects m => Some m | _ => None end
  | Gemini => match gemini_fetch w k prompt with FetchRejects m => Some m | _ => None end
  end.

Definition envelope (w : world) (b : backend) (k : jsval) (prompt : string) : option json :=
  match b with
  | Claude => match anthropic_create w k prompt with SdkResolves m => Some m | _ => None end
  | OpenAI => match openai_create w k prompt with SdkResolves m => Some m | _ => None end
  | Gemini =>
      match gemini_fetch w k prompt with
      | FetchResolves r => if ok r then match body r with Ret d => Some d | _ => None end else None
      | _ => None
      end
  end.

Definition extract (b : backend) (m : json) : throws string :=
  match b with
  | Claude => tbind (read_path (Val m) claude_path) (call_trim "message.content[0].text")
  | OpenAI => tbind (read_path (Val m) openai_path) (call_trim "response.choices[0].message.content")
  | Gemini => tbind (read_path (Val m) gemini_path)
                    (call_trim "data.candidates[0].content.parts[0].text")
  end.

(** Everything of the template before the diff. *)
Definition template_head (st : style) : string :=
  role_framing st ++ size_scaling st ++ output_format st ++ commit_types st
  ++ critical_rules st ++ examples st ++ diff_header st.

(** ** [lib/config.js] *)

(** The config file as [loadConfig] finds it: absent, or present with the
    outcome of [JSON.parse(fs.readFileSync(configPath, 'utf-8'))], a read or
    parse failure being a thrown error.  (The directory creation of
    [getConfigPath] has no bearing on the value and is left out.) *)
Inductive config_file : Type :=
| NoConfigFile
| ConfigFile (contents : throws json).

(** The object literal [loadConfig] falls back to. *)
Definition default_config : json :=
  JObj [("defaultProvider", JStr "claude");
        ("apiKeys", JObj [("anthropic", JStr EmptyString);
                          ("openai", JStr EmptyString);
                          ("gemini", JStr EmptyString)]);
        ("autoCommit", JBool false)].

(** [loadConfig()]: the [console.warn] lines and the returned value. *)
Definition loadConfig (file : config_file) : list string * json :=
  match file with
  | ConfigFile (Ret data) => ([], data)
  | ConfigFile (Throw error) =>
      (["Warning: Could not load config file: " ++ exn_message error], default_config)
  | NoConfigFile => ([], default_config)
  end.

(** [saveConfig(config)]: [write] is [fs.writeFileSync] of
    [JSON.stringify(config, null, 2)], [Some msg] when it throws. *)
Definition saveConfig (write : json -> option string) (config : json) : throws bool :=
  match write config with
  | None => Ret true
  | Some msg => Throw (Plain ("Failed to save config: " ++ msg))
  end.

(** The [config] argument of [generateCommitMessage] when it is the loaded
    value [j]: the dispatch only reads [j.apiKeys]. *)
Definition config_of (j : json) : config :=
  mkConfig (match get (Val j) (Field "apiKeys") with Ret v => v | Throw _ => Undef end).

(** [String.prototype.toUpperCase] on ASCII. *)
Definition ascii_upper (c : ascii) : ascii :=
  let n := nat_of_ascii c in
  if Nat.leb 97 n && Nat.leb n 122 then ascii_of_nat (n - 32) else c.

Fixpoint to_upper (s : string) : string :=
  match s with
  | EmptyString => EmptyString
  | String c rest => String (ascii_upper c) (to_upper rest)
  end.

(** [keyMap[provider]] on the object literal of [getApiKey]: an own string,
    a member inherited from [Object.prototype] (recorded by its conversion to
    a property key), or [undefined]. *)
Inductive key_name_val : Type :=
| KeyString (s : string)
| KeyInherited (as_key : string)
| KeyUndefined.

Definition keyMap (provider : string) : key_name_val :=
  if String.eqb provider "claude" then KeyString "anthropic"
  else if String.eqb provider "openai" then KeyString "openai"
  else if String.eqb provider "gemini" then KeyString "gemini"
  else if String.eqb provider "__proto__" then KeyInherited "[object Object]"
  else if String.eqb provider "constructor" then KeyInherited "function Object() { [native code] }"
  else if existsb (String.eqb provider) object_prototype_keys
  then KeyInherited ("function " ++ provider ++ "() { [native code] }")
  else KeyUndefined.

(** The property key [config.apiKeys?.[keyName]] reads. *)
Definition key_as_property (k : key_name_val) : string :=
  match k with
  | KeyString s => s
  | KeyInherited s => s
  | KeyUndefined => "undefined"
  end.

(** [keyName.toUpperCase()] *)
Definition call_toUpperCase (k : key_name_val) : throws string :=
  match k with
  | KeyString s => Ret (to_upper s)
  | KeyInherited _ => Throw (Plain "keyName.toUpperCase is not a function")
  | KeyUndefined => Throw (Plain "Cannot read properties of undefined (reading 'toUpperCase')")
  end.

(** [getApiKey(provider, config)]; the operands of [||] are evaluated
    lazily, left to right. *)
Definition getApiKey (w : world) (provider : string) (config : config) : throws jsval :=
  let keyName := keyMap provider in
  tbind (opt_get (apiKeys config) (Field (key_as_property keyName))) (fun fromConfig =>
  if truthy fromConfig then Ret fromConfig else
  tbind (call_toUpperCase keyName) (fun upper =>
  let fromEnv := env_val w (upper ++ "_API_KEY") in
  if truthy fromEnv then Ret fromEnv else Ret (Val JNull))).

(** ** [lib/git.js] *)

(** [execSync(command, ...)] as the outside world answers it: the standard
    output, or [None] when the command throws (non-zero exit, no git). *)
Definition shell : Type := string -> option string.

(** [getGitDiff(branch)]: [branch] is a string or [null]/[undefined]. *)
Definition diff_command (branch : option string) : string :=
  match branch with
  | Some b => if truthy (Val (JStr b)) then "git diff " ++ b else "git diff --staged"
  | None => "git diff --staged"
  end.

Definition getGitDiff (exec : shell) (branch : option string) : option string :=
  match exec (diff_command branch) with
  | Some diff =>
      let t := trim diff in
      if truthy (Val (JStr t)) then Some t else None
  | None => None
  end.

(** [s.split(sep)] for a one-character separator. *)
Fixpoint split_on (sep : ascii) (s : string) : list string :=
  match s with
  | EmptyString => [EmptyString]
  | String c rest =>
      if Ascii.eqb c sep then EmptyString :: split_on sep rest
      else match split_on sep rest with
           | [] => [String c EmptyString]
           | first :: others => String c first :: others
           end
  end.

Definition newline : ascii := ascii_of_nat 10.
Definition nl : string := String newline EmptyString.

Definition staged_names_command : string := "git diff --staged --name-only".

(** [getStagedFiles()] *)
Definition getStagedFiles (exec : shell) : list string :=
  match exec staged_names_command with
  | Some files => filter (fun f => truthy (Val (JStr f))) (split_on newline (trim files))
  | None => []
  end.

Definition backslash : ascii := ascii_of_nat 92.
Definition quote : ascii := ascii_of_nat 34.

(** [message.replace(/"/g, '\\"')]: a backslash before every double quote. *)
Fixpoint escape_quotes (s : string) : string :=
  match s with
  | EmptyString => EmptyString
  | String c rest =>
      if Ascii.eqb c quote then String backslash (String quote (escape_quotes rest))
      else String c (escape_quotes rest)
  end.

(** The command [createCommit] runs: [git commit -m "${escapedMessage}"]. *)
Definition commit_command (message : string) : string :=
  "git commit -m " ++ dq ++ escape_quotes message ++ dq.

(** [createCommit(message)] *)
Definition createCommit (exec : shell) (message : string) : bool :=
  match exec (commit_command message) with
  | Some _ => true
  | None => false
  end.

(** Reading an escaped text back: a backslash followed by a double quote
    stands for the quote. *)
Fixpoint unescape_quotes (s : string) : string :=
  match s with
  | EmptyString => EmptyString
  | String c rest =>
      match rest with
      | String c' rest' =>
          if Ascii.eqb c backslash && Ascii.eqb c' quote
          then String quote (unescape_quotes rest')
          else String c (unescape_quotes rest)
      | EmptyString => String c EmptyString
      end
  end.

(** ** The command-line entry point ([main] and [setProvider] of the CLI) *)

(** The options [main] reads on the generation path. *)
Record cli_options : Type := mkOptions {
  opt_provider : option string;   (** [--provider] *)
  opt_branch : option string      (** [--branch] *)
}.

(** Why the process ends with [process.exit(1)]. *)
Inductive cli_exit : Type :=
| ExitUnknownProvider (provider : jsval)
| ExitKeyNotConfigured (provider : string)
| ExitNoChanges
| ExitGenerationFailed
| ExitError (e : exn).   (** the [catch] of [main]: [error.message] is printed *)

Inductive cli_outcome : Type :=
| Exit1 (why : cli_exit)
| MessageReady (commitMessage : string).   (** shown, then the action menu *)

(** Commands run and events of the dispatch, in order. *)
Inductive cli_event : Type :=
| Exec (command : string)
| Dispatch (ev : event).

Definition valid_providers : list string := ["claude"; "openai"; "gemini"].

Definition option_string (o : option string) : jsval :=
  match o with Some s => Val (JStr s) | None => Undef end.

(** [options.provider || config.defaultProvider || 'claude'] *)
Definition select_provider (opt : option string) (defaultProvider : jsval) : jsval :=
  js_or (js_or (option_string opt) defaultProvider) (Val (JStr "claude")).

(** [validProviders.includes(provider)], with the backend the name denotes. *)
Definition provider_of (v : jsval) : option backend :=
  match v with
  | Val (JStr s) =>
      if String.eqb s "claude" then Some Claude
      else if String.eqb s "openai" then Some OpenAI
      else if String.eqb s "gemini" then Some Gemini
      else None
  | _ => None
  end.

(** [main()] from loading the configuration up to the generated message. *)
Definition main_generate (w : world) (exec : shell) (st : style)
    (options : cli_options) (file : config_file) : list cli_event * cli_outcome :=
  let config := snd (loadConfig file) in
  match get (Val config) (Field "defaultProvider") with
  | Throw e => ([], Exit1 (ExitError e))
  | Ret defaultProvider =>
      let provider := select_provider (opt_provider options) defaultProvider in
      match provider_of provider with
      | None => ([], Exit1 (ExitUnknownProvider provider))
      | Some b =>
          let apiKeyName := key_field b in    (* apiKeyMap[provider] *)
          match tbind (get (Val config) (Field "apiKeys"))
                      (fun a => opt_get a (Field apiKeyName)) with
          | Throw e => ([], Exit1 (ExitError e))
          | Ret fromConfig =>
              if negb (truthy fromConfig)
                 && negb (truthy (env_val w (to_upper apiKeyName ++ "_API_KEY")))
              then ([], Exit1 (ExitKeyNotConfigured (provider_name b)))
              else
                let diff_cmd := diff_command (opt_branch options) in
                match getGitDiff exec (opt_branch options) with
                | None => ([Exec diff_cmd], Exit1 ExitNoChanges)
                | Some diff =>
                    let '(t, r) :=
                      generateCommitMessage w st diff (provider_name b) (config_of config) in
                    let trace := Exec diff_cmd :: Exec staged_names_command :: map Dispatch t in
                    match r with
                    | Throw e => (trace, Exit1 (ExitError e))
                    | Ret commitMessage =>
                        if negb (truthy (Val (JStr commitMessage)))
                        then (trace, Exit1 ExitGenerationFailed)
                        else (trace, MessageReady commitMessage)
                    end
                end
          end
      end
  end.

(** [config.defaultProvider = provider] in sloppy mode: an existing own
    property is overwritten in place, a new one is appended; on a primitive
    the assignment is ignored, on an array it creates a named property that
    [JSON.stringify] does not write; on [null] it throws. *)
Definition set_field (k : string) (v : json) (fs : list (string * json)) : list (string * json) :=
  if existsb (fun kv => String.eqb k (fst kv)) fs
  then map (fun kv => if String.eqb k (fst kv) then (fst kv, v) else kv) fs
  else (fs ++ [(k, v)])%list.

Definition assign_defaultProvider (config : json) (provider : string) : throws json :=
  match config with
  | JNull => Throw (Plain "Cannot set properties of null (setting 'defaultProvider')")
  | JObj fs => Ret (JObj (set_field "defaultProvider" (JStr provider) fs))
  | other => Ret other
  end.

Inductive set_outcome : Type :=
| SetRejected                  (** unknown name: [process.exit(1)] *)
| SetSaved (saved : json)      (** the value handed to [saveConfig] and written *)
| SetFailed (e : exn).         (** thrown, reported by the [catch] of [main] *)

(** [setProvider(provider)] *)
Definition setProvider (write : json -> option string) (file : config_file)
    (provider : string) : set_outcome :=
  if negb (existsb (String.eqb provider) valid_providers) then SetRejected
  else
    match assign_defaultProvider (snd (loadConfig file)) provider with
    | Throw e => SetFailed e
    | Ret config =>
        match saveConfig write config with
        | Ret _ => SetSaved config
        | Throw e => SetFailed e
        end
    end.

(** The answers [inquirer.prompt] hands to [setup]: a key question that its
    [when] skipped has no answer ([undefined]). *)
Record setup_answers : Type := mkAnswers {
  ans_defaultProvider : string;
  ans_anthropicKey : option string;
  ans_openaiKey : option string;
  ans_geminiKey : option string;
  ans_autoCommit : bool
}.

(** A property value as [JSON.stringify] writes it. *)
Definition as_json (v : jsval) : json :=
  match v with Val j => j | Undef => JNull end.

(** [setup()], from loading the configuration to saving [newConfig]; the
    question list reads [config.defaultProvider] when it is built. *)
Definition setup (write : json -> option string) (file : config_file)
    (answers : setup_answers) : set_outcome :=
  let config := snd (loadConfig file) in
  match get (Val config) (Field "defaultProvider") with
  | Throw e => SetFailed e
  | Ret _ =>
      let previous (name : string) : jsval :=
        match tbind (get (Val config) (Field "apiKeys")) (fun a => opt_get a (Field name)) with
        | Ret v => v
        | Throw _ => Undef
        end in
      let pick (answer : option string) (name : string) : json :=
        as_json (js_or (js_or (option_string answer) (previous name)) (Val (JStr EmptyString))) in
      let newConfig :=
        JObj [("defaultProvider", JStr (ans_defaultProvider answers));
              ("apiKeys", JObj [("anthropic", pick (ans_anthropicKey answers) "anthropic");
                                ("openai", pick (ans_openaiKey answers) "openai");
                                ("gemini", pick (ans_geminiKey answers) "gemini")]);
              ("autoCommit", JBool (ans_autoCommit answers))] in
      match saveConfig write newConfig with
      | Ret _ => SetSaved newConfig
      | Throw e => SetFailed e
      end
  end.

(** The answer [setup] received for a backend's key. *)
Definition answer_for (answers : setup_answers) (b : backend) : option string :=
  match b with
  | Claude => ans_anthropicKey answers
  | OpenAI => ans_openaiKey answers
  | Gemini => ans_geminiKey answers
  end.

(** The network requests among the events of a run of [main]. *)
Fixpoint cli_net_calls (t : list cli_event) : list (backend * jsval * string) :=
  match t with
  | [] => []
  | Dispatch (NetworkCall b k p) :: rest => (b, k, p) :: cli_net_calls rest
  | _ :: rest => cli_net_calls rest
  end.

(** A concrete run of the CLI: a key in the environment, one staged file,
    and a Claude reply with the given text. *)
Definition cli_env : string -> option string := env_of [("ANTHROPIC_API_KEY", "sk-ant")].

Definition cli_shell : shell :=
  fun command =>
    if String.eqb command "git diff --staged" then Some ("diff --git a/x b/x" ++ nl)
    else if String.eqb command staged_names_command then Some ("x" ++ nl)
    else None.

Definition claude_reply (text : string) : json :=
  JObj [("content", JArr [JObj [("type", JStr "text"); ("text", JStr text)]])].

Definition cli_world (text : string) : world :=
  stub_world cli_env (claude_reply text) JNull (mkResponse 500 (Ret JNull)).

Definition no_flags : cli_options := mkOptions None None.

(** ** General lemmas *)

Lemma opt_get_config_entry (config : config) (b : backend) :
  opt_get (apiKeys config) (Field (key_field b)) = Ret (config_entry config b).
Proof.
  unfold config_entry.
  destruct (apiKeys config) as [|j]; [reflexivity|].
  destruct j, b; reflexivity.
Qed.

Lemma net_calls_app (t1 t2 : list event) :
  net_calls (t1 ++ t2) = (net_calls t1 ++ net_calls t2)%list.
Proof.
  induction t1 as [|ev t1 IH]; [reflexivity|].
  destruct ev; simpl; rewrite ?IH; reflexivity.
Qed.

Lemma net_calls_advisory (diff provider : string) :
  net_calls (advisory diff provider) = [].
Proof. unfold advisory; destruct (snd (bound diff provider)); reflexivity. Qed.

(** Dispatch on a backend's own name: the advisory, then that backend's
    function on the bounded diff. *)
Lemma dispatch_known (w : world) (st : style) (diff : string) (b : backend) (config : config) :
  generateCommitMessage w st diff (provider_name b) config =
  ((advisory diff (provider_name b) ++ fst (generateWith w b st (fst (bound diff (provider_name b))) config))%list,
   snd (generateWith w b st (fst (bound diff (provider_name b))) config)).
Proof.
  unfold generateCommitMessage, advisory, bound; simpl fst; simpl snd.
  destruct b; cbn [generateWith provider_name]; simpl;
    match goal with
    | |- context [generateWithClaude ?a ?b ?c ?d] => destruct (generateWithClaude a b c d)
    | |- context [generateWithOpenAI ?a ?b ?c ?d] => destruct (generateWithOpenAI a b c d)
    | |- context [generateWithGemini ?a ?b ?c ?d] => destruct (generateWithGemini a b c d)
    end;
    match goal with |- context [if ?c then _ else _] => destruct c end; reflexivity.
Qed.

(** Dispatch on any other name: the advisory, then [Unknown provider]. *)
Lemma dispatch_unknown (w : world) (st : style) (diff provider : string) (config : config) :
  provider <> "claude" -> provider <> "openai" -> provider <> "gemini" ->
  generateCommitMessage w st diff provider config =
  (advisory diff provider, Throw (UnknownProvider provider)).
Proof.
  intros H1 H2 H3.
  unfold generateCommitMessage, advisory, bound; simpl fst; simpl snd.
  apply String.eqb_neq in H1, H2, H3.
  destruct (length_gt diff (diff_limit provider)); simpl;
    rewrite H1, H2, H3; simpl; rewrite ?app_nil_r; reflexivity.
Qed.

Ltac open_backend :=
  match goal with
  | |- context [opt_get (apiKeys ?c) (Field "anthropic")] =>
      change (Field "anthropic") with (Field (key_field Claude));
      rewrite (opt_get_config_entry c Claude)
  | |- context [opt_get (apiKeys ?c) (Field "openai")] =>
      change (Field "openai") with (Field (key_field OpenAI));
      rewrite (opt_get_config_entry c OpenAI)
  | |- context [opt_get (apiKeys ?c) (Field "gemini")] =>
      change (Field "gemini") with (Field (key_field Gemini));
      rewrite (opt_get_config_entry c Gemini)
  end.

Lemma generateWith_nokey (w : world) (b : backend) (st : style) (diff : string) (config : config) :
  truthy (resolved_key w config b) = false ->
  generateWith w b st diff config = ([], Throw (ApiKeyNotFound b)).
Proof.
  intros H; unfold resolved_key in H.
  destruct b; cbn [generateWith];
    [unfold generateWithClaude | unfold generateWithOpenAI | unfold generateWithGemini];
    open_backend; cbn [env_name] in H; unfold bind at 1, lift at 1;
    rewrite H; reflexivity.
Qed.

Ltac settle :=
  repeat match goal with
    | |- context [match ?x with SdkRejects _ => _ | SdkResolves _ => _ end] => destruct x
    | |- context [match ?x with FetchRejects _ => _ | FetchResolves _ => _ end] => destruct x
    | |- context [match ?x with Ret _ => _ | Throw _ => _ end] => destruct x
    | |- context [if ?c then _ else _] => destruct c
    end; reflexivity.

Lemma generateWith_key_trace (w : world) (b : backend) (st : style) (diff : string) (config : config) :
  truthy (resolved_key w config b) = true ->
  fst (generateWith w b st diff config) =
  [NetworkCall b (resolved_key w config b) (buildPrompt st diff)].
Proof.
  intros H; unfold resolved_key in *.
  destruct b; cbn [generateWith];
    [unfold generateWithClaude | unfold generateWithOpenAI | unfold generateWithGemini];
    open_backend; cbn [env_name] in *; unfold bind at 1, lift at 1;
    rewrite H; cbn [negb];
  unfold catch, bind, request, lift, raise, ret, sdk_result, fetch_result,
    wrap, gemini_status_error, claude_path, openai_path, gemini_path, tbind;
    settle.
Qed.

Lemma claude_settles (w : world) (st : style) (diff : string) (config : config) :
  truthy (resolved_key w config Claude) = true ->
  snd (generateWith w Claude st diff config) =
  match anthropic_create w (resolved_key w config Claude) (buildPrompt st diff) with
  | SdkRejects msg => Throw (ApiError Claude msg)
  | SdkResolves m =>
      wrap Claude (tbind (read_path (Val m) claude_path) (call_trim "message.content[0].text"))
  end.
Proof.
  intros H; unfold resolved_key in *; cbn [generateWith]; unfold generateWithClaude.
  open_backend; cbn [env_name] in *; unfold bind at 1, lift at 1; rewrite H; cbn [negb].
  unfold catch, bind, request, lift, raise, ret, sdk_result, fetch_result,
    wrap, gemini_status_error, claude_path, openai_path, gemini_path, tbind.
  settle.
Qed.

Lemma openai_settles (w : world) (st : style) (diff : string) (config : config) :
  truthy (resolved_key w config OpenAI) = true ->
  snd (generateWith w OpenAI st diff config) =
  match openai_create w (resolved_key w config OpenAI) (buildPrompt st diff) with
  | SdkRejects msg => Throw (ApiError OpenAI msg)
  | SdkResolves m =>
      wrap OpenAI (tbind (read_path (Val m) openai_path)
                         (call_trim "response.choices[0].message.content"))
  end.
Proof.
  intros H; unfold resolved_key in *; cbn [generateWith]; unfold generateWithOpenAI.
  open_backend; cbn [env_name] in *; unfold bind at 1, lift at 1; rewrite H; cbn [negb].
  unfold catch, bind, request, lift, raise, ret, sdk_result, fetch_result,
    wrap, gemini_status_error, claude_path, openai_path, gemini_path, tbind.
  settle.
Qed.

Lemma gemini_settles (w : world) (st : style) (diff : string) (config : config) :
  truthy (resolved_key w config Gemini) = true ->
  snd (generateWith w Gemini st diff config) =
  match gemini_fetch w (resolved_key w config Gemini) (buildPrompt st diff) with
  | FetchRejects msg => Throw (ApiError Gemini msg)
  | FetchResolves r =>
      match body r with
      | Throw e => Throw (ApiError Gemini (exn_message e))
      | Ret data =>
          if ok r
          then wrap Gemini (tbind (read_path (Val data) gemini_path)
                                  (call_trim "data.candidates[0].content.parts[0].text"))
          else wrap Gemini (gemini_status_error data)
      end
  end.
Proof.
  intros H; unfold resolved_key in *; cbn [generateWith]; unfold generateWithGemini.
  open_backend; cbn [env_name] in *; unfold bind at 1, lift at 1; rewrite H; cbn [negb].
  unfold catch, bind, request, lift, raise, ret, fetch_result,
    wrap, gemini_status_error, gemini_path, tbind.
  destruct (gemini_fetch _ _ _) as [msg|r]; [reflexivity|].
  destruct (body r) as [data|e]; [|reflexivity].
  destruct (ok r); cbn [negb].
  - destruct (read_path _ _) as [v|e]; [|reflexivity].
    destruct (call_trim _ v); reflexivity.
  - destruct (get (Val data) (Field "error")) as [err|e]; [|reflexivity].
    destruct (opt_get err (Field "message")); reflexivity.
Qed.

(** ** Facts about [trim] *)

Lemma list_ltrim (s : string) :
  list_ascii_of_string (ltrim s) = drop_ws (list_ascii_of_string s).
Proof.
  induction s as [|c s IH]; [reflexivity|].
  simpl; destruct (is_ws c); [exact IH|reflexivity].
Qed.

Lemma drop_ws_idem (l : list ascii) : drop_ws (drop_ws l) = drop_ws l.
Proof.
  induction l as [|c l IH]; [reflexivity|].
  simpl; destruct (is_ws c) eqn:E; [exact IH|simpl; rewrite E; reflexivity].
Qed.

Lemma drop_ws_suffix (l : list ascii) : exists pre, l = (pre ++ drop_ws l)%list.
Proof.
  induction l as [|c l [pre IH]]; [exists []; reflexivity|].
  simpl; destruct (is_ws c).
  - exists (c :: pre); simpl; rewrite <- IH; reflexivity.
  - exists []; reflexivity.
Qed.

(** The result of [drop_ws] starts with a non-blank character, if any. *)
Lemma drop_ws_head (l : list ascii) :
  drop_ws l = [] \/ exists c r, drop_ws l = c :: r /\ is_ws c = false.
Proof.
  induction l as [|c l IH]; [left; reflexivity|].
  simpl; destruct (is_ws c) eqn:E; [exact IH|right; eauto].
Qed.

Lemma trim_idem (s : string) : trim (trim s) = trim s.
Proof.
  unfold trim, rtrim.
  set (A := list_ascii_of_string (ltrim s)).
  set (B := rev (drop_ws (rev A))).
  assert (HA : A = drop_ws (list_ascii_of_string s)) by apply list_ltrim.
  assert (Hpre : exists suf, A = (B ++ suf)%list).
  { destruct (drop_ws_suffix (rev A)) as [pre Hp].
    exists (rev pre). unfold B.
    rewrite <- rev_app_distr, <- Hp, rev_involutive; reflexivity. }
  assert (HB : drop_ws B = B).
  { destruct Hpre as [suf Hs].
    destruct B as [|c r] eqn:EB; [reflexivity|].
    destruct (drop_ws_head (list_ascii_of_string s)) as [H0|[c' [r' [H1 H2]]]].
    - rewrite <- HA in H0; rewrite H0 in Hs; discriminate.
    - rewrite <- HA in H1; rewrite H1 in Hs; simpl in Hs.
      injection Hs as -> _; simpl; rewrite H2; reflexivity. }
  rewrite list_ltrim, list_ascii_of_string_of_list_ascii, HB.
  f_equal. unfold B. rewrite rev_involutive, drop_ws_idem. reflexivity.
Qed.

Lemma trim_blank (t : string) :
  forallb is_ws (list_ascii_of_string t) = true -> trim t = EmptyString.
Proof.
  intros H; unfold trim, rtrim.
  assert (E : ltrim t = EmptyString).
  { induction t as [|c t IH]; [reflexivity|].
    simpl in *; apply andb_prop in H as [Hc Ht]; rewrite Hc; auto. }
  rewrite E; reflexivity.
Qed.

(** ** Facts about strings and the template *)

Lemma string_app_assoc (a b c : string) : a ++ b ++ c = (a ++ b) ++ c.
Proof. induction a as [|x a IH]; simpl; [reflexivity|rewrite IH; reflexivity]. Qed.

Lemma string_app_nil_r (a : string) : a ++ EmptyString = a.
Proof. induction a as [|x a IH]; simpl; [reflexivity|rewrite IH; reflexivity]. Qed.

Lemma infix_refl (x : string) : infix x x.
Proof. exists EmptyString, EmptyString; rewrite string_app_nil_r; reflexivity. Qed.

Lemma infix_empty (y : string) : infix EmptyString y.
Proof. exists EmptyString, y; reflexivity. Qed.

Lemma buildPrompt_split (st : style) (diff : string) :
  buildPrompt st diff = template_head st ++ diff ++ closing st.
Proof.
  unfold buildPrompt, template_head.
  rewrite !string_app_assoc; reflexivity.
Qed.

Lemma bound_empty (provider : string) : bound EmptyString provider = (EmptyString, false).
Proof.
  unfold bound, diff_limit, DIFF_LIMITS.
  destruct (String.eqb provider "claude"); [reflexivity|].
  destruct (String.eqb provider "openai"); [reflexivity|].
  destruct (String.eqb provider "gemini"); [reflexivity|].
  destruct (existsb _ _); reflexivity.
Qed.

(** * Claims *)

(** C1 (as amended).  For each of [claude], [openai], [gemini]: the key sent
    with the single network request is [config.apiKeys.<field>] when that
    value is truthy (a non-empty string), otherwise the backend's
    environment variable when that is truthy; when neither is, dispatch
    throws [<Vendor> API key not found] and makes no network request. *)
Theorem credential_resolution (w : world) (st : style) (diff : string) (b : backend) (config : config) :
  let r := generateCommitMessage w st diff (provider_name b) config in
  let cfg := config_entry config b in
  let ev := env_val w (env_name b) in
  let prompt := buildPrompt st (fst (bound diff (provider_name b))) in
  (truthy cfg = true -> net_calls (fst r) = [(b, cfg, prompt)]) /\
  (truthy cfg = false -> truthy ev = true -> net_calls (fst r) = [(b, ev, prompt)]) /\
  (truthy cfg = false -> truthy ev = false ->
     snd r = Throw (ApiKeyNotFound b) /\ net_calls (fst r) = []).
Proof.
  cbv zeta; rewrite dispatch_known; cbn [fst snd].
  rewrite net_calls_app, net_calls_advisory; cbn [app].
  split; [|split]; intros Hc; [| intros He | intros He].
  - assert (Hk : resolved_key w config b = config_entry config b)
      by (unfold resolved_key, js_or; rewrite Hc; reflexivity).
    rewrite generateWith_key_trace by (rewrite Hk; exact Hc).
    rewrite Hk; reflexivity.
  - assert (Hk : resolved_key w config b = env_val w (env_name b))
      by (unfold resolved_key, js_or; rewrite Hc; reflexivity).
    rewrite generateWith_key_trace by (rewrite Hk; exact He).
    rewrite Hk; reflexivity.
  - rewrite generateWith_nokey by (unfold resolved_key, js_or; rewrite Hc; exact He).
    split; reflexivity.
Qed.

Lemma credential_resolution_witness :
  let w := stub_world (env_of [("ANTHROPIC_API_KEY", "env-key")]) JNull JNull (mkResponse 200 (Ret JNull)) in
  let config := mkConfig (Val (JObj [("anthropic", JStr "cfg-key")])) in
  truthy (config_entry config Claude) = true /\
  net_calls (fst (generateCommitMessage w Thorough "d" (provider_name Claude) config)) =
  [(Claude, config_entry config Claude, buildPrompt Thorough (fst (bound "d" (provider_name Claude))))].
Proof.
  cbv zeta; split; [reflexivity|].
  apply (proj1 (credential_resolution _ Thorough "d" Claude _)); reflexivity.
Defined.

(** C1 refuted as stated: a config entry that is present but empty is not
    used; with [apiKeys.anthropic = ""] and [ANTHROPIC_API_KEY=tok-123] the
    request is sent with [tok-123]. *)
Lemma credential_present_empty_config_ignored :
  let w := stub_world (env_of [("ANTHROPIC_API_KEY", "tok-123")]) JNull JNull (mkResponse 200 (Ret JNull)) in
  let config := mkConfig (Val (JObj [("anthropic", JStr EmptyString)])) in
  config_entry config Claude = Val (JStr EmptyString) /\
  env w "ANTHROPIC_API_KEY" = Some "tok-123" /\
  net_calls (fst (generateCommitMessage w Thorough "d" "claude" config)) =
  [(Claude, Val (JStr "tok-123"), buildPrompt Thorough "d")].
Proof. cbv zeta; split; [reflexivity|split; [reflexivity|vm_compute; reflexivity]]. Qed.

(** C7.  For both templates, [buildPrompt st d] is the fixed text before the
    diff, [d] itself unchanged, then the fixed closing; so it contains [d]
    verbatim, the role framing and the rules block of [st]. *)
Theorem buildPrompt_embeds_diff (st : style) (diff : string) :
  buildPrompt st diff = template_head st ++ diff ++ closing st /\
  infix diff (buildPrompt st diff) /\
  infix (role_framing st) (buildPrompt st diff) /\
  infix (critical_rules st) (buildPrompt st diff).
Proof.
  split; [apply buildPrompt_split|split; [|split]].
  - exists (template_head st), (closing st); apply buildPrompt_split.
  - exists EmptyString,
      (size_scaling st ++ output_format st ++ commit_types st ++ critical_rules st
       ++ examples st ++ diff_header st ++ diff ++ closing st).
    reflexivity.
  - exists (role_framing st ++ size_scaling st ++ output_format st ++ commit_types st),
      (examples st ++ diff_header st ++ diff ++ closing st).
    unfold buildPrompt; rewrite <- !string_app_assoc; reflexivity.
Qed.

(** C8.  An empty diff is bounded to itself without the advisory, renders the
    whole template around an empty diff, and (given a key) is sent to the
    backend: exactly one request, with that prompt. *)
Theorem empty_diff_not_guarded (w : world) (st : style) (b : backend) (config : config) :
  bound EmptyString (provider_name b) = (EmptyString, false) /\
  buildPrompt st EmptyString = template_head st ++ closing st /\
  (truthy (resolved_key w config b) = true ->
   fst (generateCommitMessage w st EmptyString (provider_name b) config) =
   [NetworkCall b (resolved_key w config b) (buildPrompt st EmptyString)]).
Proof.
  split; [apply bound_empty|split; [apply buildPrompt_split|]].
  intros H; rewrite dispatch_known; cbn [fst].
  unfold advisory; rewrite bound_empty; cbn [fst snd app].
  apply generateWith_key_trace; exact H.
Qed.

Lemma empty_diff_not_guarded_witness :
  let w := stub_world (env_of [("GEMINI_API_KEY", "g-key")]) JNull JNull (mkResponse 200 (Ret JNull)) in
  let config := mkConfig Undef in
  truthy (resolved_key w config Gemini) = true /\
  fst (generateCommitMessage w Concise EmptyString (provider_name Gemini) config) =
  [NetworkCall Gemini (resolved_key w config Gemini) (buildPrompt Concise EmptyString)].
Proof.
  cbv zeta; split; [reflexivity|].
  apply (empty_diff_not_guarded _ Concise Gemini _); reflexivity.
Defined.

(** C9.  When [config.apiKeys.<field>] is the empty string (the shape of the
    default config), the environment variable is used when it holds a
    non-empty string, and [<Vendor> API key not found] is thrown, with no
    request, when it is unset or empty. *)
Theorem empty_config_key_uses_env (w : world) (st : style) (diff : string) (b : backend) (config : config) :
  config_entry config b = Val (JStr EmptyString) ->
  let r := generateCommitMessage w st diff (provider_name b) config in
  (forall s, env w (env_name b) = Some s -> s <> EmptyString ->
     net_calls (fst r) = [(b, Val (JStr s), buildPrompt st (fst (bound diff (provider_name b))))]) /\
  (env w (env_name b) = None \/ env w (env_name b) = Some EmptyString ->
     snd r = Throw (ApiKeyNotFound b) /\ net_calls (fst r) = []).
Proof.
  intros Hc; cbv zeta.
  destruct (credential_resolution w st diff b config) as [_ [H2 H3]]; cbv zeta in H2, H3.
  rewrite Hc in H2, H3; cbn [truthy negb String.eqb] in H2, H3.
  split.
  - intros s Hs Hne; unfold env_val in H2; rewrite Hs in H2.
    apply H2; [reflexivity|].
    cbn [truthy]; destruct s; [congruence|reflexivity].
  - intros [He|He]; apply H3; try reflexivity; unfold env_val; rewrite He; reflexivity.
Qed.

Lemma empty_config_key_uses_env_witness :
  let w := stub_world (env_of [("OPENAI_API_KEY", "sk-env")]) JNull JNull (mkResponse 200 (Ret JNull)) in
  let config := mkConfig (Val (JObj [("anthropic", JStr EmptyString); ("openai", JStr EmptyString);
                                     ("gemini", JStr EmptyString)])) in
  config_entry config OpenAI = Val (JStr EmptyString) /\
  net_calls (fst (generateCommitMessage w Thorough "d" (provider_name OpenAI) config)) =
  [(OpenAI, Val (JStr "sk-env"), buildPrompt Thorough (fst (bound "d" (provider_name OpenAI))))].
Proof.
  cbv zeta; split; [reflexivity|].
  match goal with
  | |- context [generateCommitMessage ?w _ _ _ ?c] =>
      apply (proj1 (empty_config_key_uses_env w Thorough "d" OpenAI c eq_refl));
      [reflexivity|discriminate]
  end.
Defined.

(** ** Shapes of the settled result *)

Lemma ok_true (r : response) : (200 <= status r <= 299)%Z -> ok r = true.
Proof. intros [H1 H2]; unfold ok; apply andb_true_intro; split; apply Z.leb_le; assumption. Qed.

Lemma ok_false (r : response) : ~ (200 <= status r <= 299)%Z -> ok r = false.
Proof.
  intros H; unfold ok.
  destruct (Z.leb 200 (status r)) eqn:E1, (Z.leb (status r) 299) eqn:E2; try reflexivity.
  apply Z.leb_le in E1; apply Z.leb_le in E2; exfalso; apply H; split; assumption.
Qed.

Lemma trim_result (ex : string) (m : throws jsval) (s : string) :
  tbind m (call_trim ex) = Ret s -> exists x, s = trim x.
Proof.
  destruct m as [v|e]; cbn [tbind]; [|discriminate].
  destruct v as [|j]; [discriminate|].
  destruct j; cbn [call_trim get tbind]; try discriminate.
  intros H; injection H as <-; eauto.
Qed.

Lemma wrap_ret (b : backend) (r : throws string) (s : string) : wrap b r = Ret s -> r = Ret s.
Proof. destruct r; cbn; congruence. Qed.

Lemma wrap_throw (b : backend) (r : throws string) (e : exn) :
  wrap b r = Throw e -> documented e = true.
Proof. destruct r; cbn; intros H; inversion H; reflexivity. Qed.

Lemma gemini_status_error_throws (data : json) (s : string) : gemini_status_error data <> Ret s.
Proof.
  unfold gemini_status_error; destruct (get _ _); cbn [tbind]; [|discriminate].
  destruct (opt_get _ _); discriminate.
Qed.

Lemma generateWith_shape (w : world) (b : backend) (st : style) (diff : string) (config : config) :
  (forall s, snd (generateWith w b st diff config) = Ret s -> exists x, s = trim x) /\
  (forall e, snd (generateWith w b st diff config) = Throw e -> documented e = true).
Proof.
  destruct (truthy (resolved_key w config b)) eqn:Hk.
  2: { rewrite generateWith_nokey by exact Hk; cbn [snd].
       split; intros ? H; inversion H; reflexivity. }
  destruct b; [rewrite claude_settles | rewrite openai_settles | rewrite gemini_settles];
    try exact Hk.
  - destruct (anthropic_create _ _ _); split; intros ? H;
      try (inversion H; reflexivity);
      [apply wrap_ret in H; eapply trim_result; exact H | eapply wrap_throw; exact H].
  - destruct (openai_create _ _ _); split; intros ? H;
      try (inversion H; reflexivity);
      [apply wrap_ret in H; eapply trim_result; exact H | eapply wrap_throw; exact H].
  - destruct (gemini_fetch _ _ _) as [|r]; [split; intros ? H; inversion H; reflexivity|].
    destruct (body r) as [data|]; [|split; intros ? H; inversion H; reflexivity].
    destruct (ok r); split; intros ? H.
    + apply wrap_ret in H; eapply trim_result; exact H.
    + eapply wrap_throw; exact H.
    + apply wrap_ret in H; exfalso; eapply gemini_status_error_throws; exact H.
    + eapply wrap_throw; exact H.
Qed.

(** The three backends on stubbed success replies whose text fields hold the
    same string [t]. *)
Lemma stub_replies (e : string -> option string) (st : style) (diff : string) (config : config)
    (t : string) (m_claude m_openai data : json) (s : Z) :
  let w := stub_world e m_claude m_openai (mkResponse s (Ret data)) in
  (forall b, truthy (resolved_key w config b) = true) ->
  read_path (Val m_claude) claude_path = Ret (Val (JStr t)) ->
  read_path (Val m_openai) openai_path = Ret (Val (JStr t)) ->
  read_path (Val data) gemini_path = Ret (Val (JStr t)) ->
  (200 <= s <= 299)%Z ->
  snd (generateCommitMessage w st diff (provider_name Claude) config) = Ret (trim t) /\
  snd (generateCommitMessage w st diff (provider_name OpenAI) config) = Ret (trim t) /\
  snd (generateCommitMessage w st diff (provider_name Gemini) config) = Ret (trim t).
Proof.
  intros w Hk H1 H2 H3 Hs.
  rewrite !dispatch_known; cbn [snd].
  rewrite claude_settles, openai_settles, gemini_settles by apply Hk.
  cbn [anthropic_create openai_create gemini_fetch w stub_world body].
  rewrite (ok_true (mkResponse s (Ret data))) by exact Hs.
  rewrite H1, H2, H3; repeat split.
Qed.

Lemma opt_get_of_get (v : jsval) (k : key) (x : jsval) : get v k = Ret x -> opt_get v k = Ret x.
Proof. destruct v as [|j]; [discriminate|]; destruct j; cbn [opt_get]; auto; discriminate. Qed.

(** C2 refuted as stated: an unknown provider still goes through the bounding
    step, which prints the truncation advisory for a diff longer than the
    default limit before [Unknown provider] is thrown. *)
Lemma unknown_provider_still_bounds :
  let w := stub_world (fun _ => None) JNull JNull (mkResponse 200 (Ret JNull)) in
  let diff := replicate (Z.to_nat 50001) "a"%char in
  generateCommitMessage w Thorough diff "mistral" (mkConfig Undef) =
    (advisory diff "mistral", Throw (UnknownProvider "mistral")) /\
  advisory diff "mistral" = [LargeDiffWarning "mistral" (String.length diff) (LNum 50000); SplitTip].
Proof.
  cbv zeta; split; [apply dispatch_unknown; discriminate|].
  unfold advisory.
  replace (snd (bound (replicate (Z.to_nat 50001) "a"%char) "mistral")) with true
    by (vm_compute; reflexivity).
  reflexivity.
Qed.

(** C2 (as amended).  For a provider other than [claude], [openai] and
    [gemini], dispatch prints what the bounding step prints (the advisory if
    the diff is over its limit) and then throws [Unknown provider: <p>]; no
    prompt is sent and no network request is made. *)
Theorem unknown_provider_rejected (w : world) (st : style) (diff provider : string) (config : config) :
  provider <> "claude" -> provider <> "openai" -> provider <> "gemini" ->
  generateCommitMessage w st diff provider config =
    (advisory diff provider, Throw (UnknownProvider provider)) /\
  net_calls (fst (generateCommitMessage w st diff provider config)) = [].
Proof.
  intros H1 H2 H3; rewrite (dispatch_unknown w st diff provider config H1 H2 H3).
  split; [reflexivity|apply net_calls_advisory].
Qed.

Lemma unknown_provider_rejected_witness :
  let w := stub_world (fun _ => None) JNull JNull (mkResponse 200 (Ret JNull)) in
  ("mistral" <> "claude" /\ "mistral" <> "openai" /\ "mistral" <> "gemini") /\
  net_calls (fst (generateCommitMessage w Concise "diff" "mistral" (mkConfig Undef))) = [].
Proof.
  cbv zeta; split; [repeat split; discriminate|].
  apply (unknown_provider_rejected _ Concise "diff" "mistral" _); discriminate.
Defined.

(** C3 (code defect).  [DIFF_LIMITS] is a plain object, so a provider name
    inherited from [Object.prototype] such as [toString] yields a function,
    which [|| 50000] keeps: [substring(0, fn)] returns the empty string and
    [length > fn] is false, whereas an ordinary unknown name gets the default
    50000 and the advisory. *)
Theorem prototype_provider_skips_default_limit :
  let big := replicate (Z.to_nat 50001) "a"%char in
  diff_limit "toString" = LNonNumeric /\
  bound "abc" "toString" = (EmptyString, false) /\
  bound "abc" "mistral" = ("abc", false) /\
  snd (bound big "toString") = false /\
  snd (bound big "mistral") = true.
Proof.
  cbv zeta; repeat split; vm_compute; reflexivity.
Qed.

(** C4.  With a stubbed network layer answering each backend with its
    success envelope, whose text field ([content[0].text],
    [choices[0].message.content], [candidates[0].content.parts[0].text])
    holds [t], and a 2xx status for Gemini, dispatch returns [trim t] for all
    three backends. *)
Theorem envelopes_normalise_identically (e : string -> option string) (st : style) (diff : string)
    (config : config) (t : string) (m_claude m_openai data : json) (s : Z) :
  let w := stub_world e m_claude m_openai (mkResponse s (Ret data)) in
  (forall b, truthy (resolved_key w config b) = true) ->
  read_path (Val m_claude) claude_path = Ret (Val (JStr t)) ->
  read_path (Val m_openai) openai_path = Ret (Val (JStr t)) ->
  read_path (Val data) gemini_path = Ret (Val (JStr t)) ->
  (200 <= s <= 299)%Z ->
  snd (generateCommitMessage w st diff (provider_name Claude) config) = Ret (trim t) /\
  snd (generateCommitMessage w st diff (provider_name OpenAI) config) = Ret (trim t) /\
  snd (generateCommitMessage w st diff (provider_name Gemini) config) = Ret (trim t).
Proof. apply stub_replies. Qed.

Definition sample_claude (t : string) : json :=
  JObj [("id", JStr "msg_1"); ("content", JArr [JObj [("type", JStr "text"); ("text", JStr t)]])].
Definition sample_openai (t : string) : json :=
  JObj [("choices", JArr [JObj [("index", JNum 0);
                                ("message", JObj [("role", JStr "assistant"); ("content", JStr t)])]])].
Definition sample_gemini (t : string) : json :=
  JObj [("candidates", JArr [JObj [("content", JObj [("parts", JArr [JObj [("text", JStr t)]]);
                                                      ("role", JStr "model")])]])].
Definition sample_env : string -> option string :=
  env_of [("ANTHROPIC_API_KEY", "a"); ("OPENAI_API_KEY", "o"); ("GEMINI_API_KEY", "g")].

Lemma envelopes_normalise_identically_witness :
  let t := "  fix(api): handle null response  " in
  let w := stub_world sample_env (sample_claude t) (sample_openai t)
             (mkResponse 200 (Ret (sample_gemini t))) in
  snd (generateCommitMessage w Thorough "d" (provider_name Claude) (mkConfig Undef)) = Ret (trim t) /\
  snd (generateCommitMessage w Thorough "d" (provider_name OpenAI) (mkConfig Undef)) = Ret (trim t) /\
  snd (generateCommitMessage w Thorough "d" (provider_name Gemini) (mkConfig Undef)) = Ret (trim t).
Proof.
  cbv zeta.
  apply (envelopes_normalise_identically sample_env Thorough "d" (mkConfig Undef)
           "  fix(api): handle null response  ");
    [intros b; destruct b; reflexivity | reflexivity | reflexivity | reflexivity | lia].
Defined.

(** C5.  For Gemini, a response with a non-2xx status whose JSON body has a
    string [error.message] makes dispatch throw [Gemini API error: <m>]
    carrying that message (the fallback text stands in only for an empty
    message), whatever else the body holds: the status check comes before
    the candidates are read. *)
Theorem gemini_error_status_raises_message (e : string -> option string) (st : style) (diff : string)
    (config : config) (m_claude m_openai data : json) (s : Z) (m : string) :
  let w := stub_world e m_claude m_openai (mkResponse s (Ret data)) in
  truthy (resolved_key w config Gemini) = true ->
  ~ (200 <= s <= 299)%Z ->
  read_path (Val data) [Field "error"; Field "message"] = Ret (Val (JStr m)) ->
  exists inner,
    snd (generateCommitMessage w st diff (provider_name Gemini) config) = Throw (ApiError Gemini inner) /\
    inner = (if String.eqb m EmptyString then "Gemini API request failed" else m) /\
    infix m inner.
Proof.
  intros w Hk Hs Hp.
  rewrite dispatch_known; cbn [snd].
  rewrite gemini_settles by exact Hk.
  cbn [gemini_fetch w stub_world body].
  rewrite (ok_false (mkResponse s (Ret data))) by exact Hs.
  unfold gemini_status_error.
  cbn [read_path] in Hp.
  destruct (get (Val data) (Field "error")) as [v|] eqn:E1; [|discriminate].
  cbn [tbind] in Hp |- *.
  destruct (get v (Field "message")) as [x|] eqn:E2; [|discriminate].
  cbn [tbind] in Hp; injection Hp as ->.
  rewrite (opt_get_of_get _ _ _ E2); cbn [tbind wrap exn_message].
  unfold js_or, truthy; cbn [jsval_to_string json_to_string].
  destruct (String.eqb m EmptyString) eqn:Em; cbn [negb json_to_string jsval_to_string].
  - apply String.eqb_eq in Em; subst m.
    eexists; split; [reflexivity|split; [reflexivity|apply infix_empty]].
  - eexists; split; [reflexivity|split; [reflexivity|apply infix_refl]].
Qed.

Lemma gemini_error_status_raises_message_witness :
  let data := JObj [("error", JObj [("code", JNum 429); ("message", JStr "Quota exceeded");
                                    ("status", JStr "RESOURCE_EXHAUSTED")])] in
  let w := stub_world sample_env JNull JNull (mkResponse 429 (Ret data)) in
  exists inner,
    snd (generateCommitMessage w Concise "d" (provider_name Gemini) (mkConfig Undef)) =
      Throw (ApiError Gemini inner) /\
    inner = (if String.eqb "Quota exceeded" EmptyString then "Gemini API request failed"
             else "Quota exceeded") /\
    infix "Quota exceeded" inner.
Proof.
  cbv zeta.
  apply (gemini_error_status_raises_message sample_env Concise "d" (mkConfig Undef) JNull JNull);
    [reflexivity | lia | reflexivity].
Defined.

(** C10.  A well-formed success envelope whose text is empty or blank gives a
    successful empty string on every backend; no error is raised. *)
Theorem blank_reply_is_empty_success (e : string -> option string) (st : style) (diff : string)
    (config : config) (t : string) (m_claude m_openai data : json) (s : Z) :
  let w := stub_world e m_claude m_openai (mkResponse s (Ret data)) in
  forallb is_ws (list_ascii_of_string t) = true ->
  (forall b, truthy (resolved_key w config b) = true) ->
  read_path (Val m_claude) claude_path = Ret (Val (JStr t)) ->
  read_path (Val m_openai) openai_path = Ret (Val (JStr t)) ->
  read_path (Val data) gemini_path = Ret (Val (JStr t)) ->
  (200 <= s <= 299)%Z ->
  snd (generateCommitMessage w st diff (provider_name Claude) config) = Ret EmptyString /\
  snd (generateCommitMessage w st diff (provider_name OpenAI) config) = Ret EmptyString /\
  snd (generateCommitMessage w st diff (provider_name Gemini) config) = Ret EmptyString.
Proof.
  intros w Hb Hk H1 H2 H3 Hs.
  rewrite <- (trim_blank t Hb).
  exact (stub_replies e st diff config t m_claude m_openai data s Hk H1 H2 H3 Hs).
Qed.

Lemma blank_reply_is_empty_success_witness :
  let t := String (ascii_of_nat 10) (String (ascii_of_nat 32) (String (ascii_of_nat 9) EmptyString)) in
  let w := stub_world sample_env (sample_claude t) (sample_openai t)
             (mkResponse 200 (Ret (sample_gemini t))) in
  snd (generateCommitMessage w Thorough "d" (provider_name Claude) (mkConfig Undef)) = Ret EmptyString /\
  snd (generateCommitMessage w Thorough "d" (provider_name OpenAI) (mkConfig Undef)) = Ret EmptyString /\
  snd (generateCommitMessage w Thorough "d" (provider_name Gemini) (mkConfig Undef)) = Ret EmptyString.
Proof.
  cbv zeta.
  apply (blank_reply_is_empty_success sample_env Thorough "d" (mkConfig Undef)
           (String (ascii_of_nat 10) (String (ascii_of_nat 32) (String (ascii_of_nat 9) EmptyString))));
    [reflexivity | intros b; destruct b; reflexivity | reflexivity | reflexivity | reflexivity | lia].
Defined.

Lemma provider_cases (provider : string) :
  (exists b, provider = provider_name b) \/
  (provider <> "claude" /\ provider <> "openai" /\ provider <> "gemini").
Proof.
  destruct (String.eqb provider "claude") eqn:E1;
    [apply String.eqb_eq in E1; left; exists Claude; exact E1|apply String.eqb_neq in E1].
  destruct (String.eqb provider "openai") eqn:E2;
    [apply String.eqb_eq in E2; left; exists OpenAI; exact E2|apply String.eqb_neq in E2].
  destruct (String.eqb provider "gemini") eqn:E3;
    [apply String.eqb_eq in E3; left; exists Gemini; exact E3|apply String.eqb_neq in E3].
  right; auto.
Qed.

(** C6.  Whatever the provider and whatever the network layer does, dispatch
    returns a trimmed string (the [trim] of the whole text field) or throws
    one of [Unknown provider], [<Vendor> API key not found] and
    [<Api> API error: <inner>].  A rejected request with message [msg] is
    rethrown as [<Api> API error: <msg>], and a success body whose text field
    cannot be read (a missing field, a non-string text) as
    [<Api> API error: <TypeError message>]. *)
Theorem dispatch_outcomes_documented (w : world) (st : style) (diff provider : string) (config : config) :
  let r := generateCommitMessage w st diff provider config in
  (forall s, snd r = Ret s -> exists x, s = trim x /\ trim s = s) /\
  (forall e, snd r = Throw e -> documented e = true) /\
  (forall b, provider = provider_name b ->
     let k := resolved_key w config b in
     let prompt := buildPrompt st (fst (bound diff provider)) in
     truthy k = true ->
     (forall msg, transport_error w b k prompt = Some msg -> snd r = Throw (ApiError b msg)) /\
     (forall m e, envelope w b k prompt = Some m -> extract b m = Throw e ->
        snd r = Throw (ApiError b (exn_message e)))).
Proof.
  cbv zeta; split; [|split].
  - intros s H.
    destruct (provider_cases provider) as [[b ->]|[H1 [H2 H3]]].
    + rewrite dispatch_known in H; cbn [snd] in H.
      destruct (proj1 (generateWith_shape w b st _ config) s H) as [x ->].
      exists x; split; [reflexivity|apply trim_idem].
    + rewrite dispatch_unknown in H by assumption; discriminate.
  - intros e H.
    destruct (provider_cases provider) as [[b ->]|[H1 [H2 H3]]].
    + rewrite dispatch_known in H; cbn [snd] in H.
      exact (proj2 (generateWith_shape w b st _ config) e H).
    + rewrite dispatch_unknown in H by assumption; cbn [snd] in H.
      injection H as <-; reflexivity.
  - intros b -> Hk.
    rewrite dispatch_known; cbn [snd].
    destruct b; [rewrite claude_settles | rewrite openai_settles | rewrite gemini_settles];
      try exact Hk; unfold transport_error, envelope, extract.
    + destruct (anthropic_create _ _ _) as [msg|m]; split; try discriminate.
      * intros ? H; injection H as <-; reflexivity.
      * intros ? e H He; injection H as <-; rewrite He; reflexivity.
    + destruct (openai_create _ _ _) as [msg|m]; split; try discriminate.
      * intros ? H; injection H as <-; reflexivity.
      * intros ? e H He; injection H as <-; rewrite He; reflexivity.
    + destruct (gemini_fetch _ _ _) as [msg|r]; split; try discriminate.
      * intros ? H; injection H as <-; reflexivity.
      * intros m e H He.
        destruct (ok r); [|discriminate].
        destruct (body r) as [data|]; [|discriminate].
        injection H as <-; rewrite He; reflexivity.
Qed.

Lemma dispatch_outcomes_documented_witness :
  let w := mkWorld sample_env (fun _ _ => SdkRejects "401 invalid x-api-key")
             (fun _ _ => SdkResolves (sample_openai "x"))
             (fun _ _ => FetchResolves (mkResponse 200 (Ret (sample_gemini "x")))) in
  transport_error w Claude (resolved_key w (mkConfig Undef) Claude)
    (buildPrompt Thorough (fst (bound "d" (provider_name Claude)))) = Some "401 invalid x-api-key" /\
  snd (generateCommitMessage w Thorough "d" (provider_name Claude) (mkConfig Undef)) =
    Throw (ApiError Claude "401 invalid x-api-key").
Proof.
  cbv zeta; split; [reflexivity|].
  match goal with
  | |- context [generateCommitMessage ?w _ _ _ _] =>
      refine (proj1 (proj2 (proj2 (dispatch_outcomes_documented w Thorough "d" (provider_name Claude)
                                     (mkConfig Undef))) Claude eq_refl eq_refl) _ _)
  end.
  reflexivity.
Defined.

(** * Further properties of the code

    [lib/config.js], [lib/git.js] and the command-line entry point. *)

(** ** Key lookups of [config.js] and of the CLI *)

(** ** Facts about the key lookups of [config.js] and the CLI *)

Lemma keyMap_known (b : backend) : keyMap (provider_name b) = KeyString (key_field b).
Proof. destruct b; reflexivity. Qed.

Lemma upper_env_name (b : backend) : to_upper (key_field b) ++ "_API_KEY" = env_name b.
Proof. destruct b; reflexivity. Qed.

(** [getApiKey] on a backend's own name. *)
Lemma getApiKey_known (w : world) (b : backend) (config : config) :
  getApiKey w (provider_name b) config =
  Ret (if truthy (resolved_key w config b) then resolved_key w config b else Val JNull).
Proof.
  unfold getApiKey; cbv zeta; rewrite keyMap_known; cbn [key_as_property call_toUpperCase].
  rewrite opt_get_config_entry; cbn [tbind]; rewrite upper_env_name.
  unfold resolved_key, js_or.
  destruct (truthy (config_entry config b)) eqn:E; [rewrite E; reflexivity|].
  destruct (truthy (env_val w (env_name b))) eqn:E'; rewrite ?E'; reflexivity.
Qed.

(** With a key, a backend's errors are all [<Api> API error: ...]. *)
Lemma generateWith_keyed_errors (w : world) (b : backend) (st : style) (diff : string) (config : config) (e : exn) :
  truthy (resolved_key w config b) = true ->
  snd (generateWith w b st diff config) = Throw e -> exists i, e = ApiError b i.
Proof.
  intros Hk.
  destruct b; [rewrite claude_settles | rewrite openai_settles | rewrite gemini_settles]; try exact Hk.
  - destruct (anthropic_create _ _ _); [intros H; injection H as <-; eauto|].
    unfold wrap; destruct (tbind _ _); intros H; inversion H; eauto.
  - destruct (openai_create _ _ _); [intros H; injection H as <-; eauto|].
    unfold wrap; destruct (tbind _ _); intros H; inversion H; eauto.
  - destruct (gemini_fetch _ _ _) as [|r]; [intros H; injection H as <-; eauto|].
    destruct (body r); [|intros H; injection H as <-; eauto].
    destruct (ok r); unfold wrap;
      [destruct (tbind _ _) | destruct (gemini_status_error _)]; intros H; inversion H; eauto.
Qed.

Lemma dispatch_key_not_found (w : world) (st : style) (diff : string) (b : backend) (config : config) :
  snd (generateCommitMessage w st diff (provider_name b) config) = Throw (ApiKeyNotFound b) <->
  truthy (resolved_key w config b) = false.
Proof.
  rewrite dispatch_known; cbn [snd].
  destruct (truthy (resolved_key w config b)) eqn:Hk.
  - split; [|discriminate]. intros H.
    destruct (generateWith_keyed_errors _ _ _ _ _ _ Hk H) as [i Hi]; discriminate.
  - rewrite generateWith_nokey by exact Hk; split; reflexivity.
Qed.

Lemma truthy_null_false (v : jsval) : truthy v = true -> v <> Val JNull.
Proof. intros H ->; discriminate. Qed.

Lemma get_never_throws_on_value (j : json) (k : key) (e : exn) :
  j <> JNull -> get (Val j) k <> Throw e.
Proof.
  intros Hj; destruct j; cbn [get]; try discriminate; try (exfalso; apply Hj; reflexivity);
    destruct k as [n|i];
    try (destruct (nth_error _ _); discriminate);
    try (destruct (String.get _ _); discriminate);
    repeat match goal with
           | |- context [match ?x with _ => _ end] => destruct x
           end; discriminate.
Qed.

Lemma opt_get_never_throws (v : jsval) (k : key) (e : exn) : opt_get v k <> Throw e.
Proof.
  destruct v as [|j]; cbn [opt_get]; [discriminate|].
  destruct j; try discriminate; apply get_never_throws_on_value; discriminate.
Qed.

(** The CLI's key check is the negation of the dispatch's resolution. *)
Lemma cli_key_check (w : world) (j : json) (b : backend) :
  j <> JNull ->
  exists fromConfig,
    tbind (get (Val j) (Field "apiKeys")) (fun a => opt_get a (Field (key_field b))) = Ret fromConfig /\
    negb (truthy fromConfig) && negb (truthy (env_val w (to_upper (key_field b) ++ "_API_KEY")))
    = negb (truthy (resolved_key w (config_of j) b)).
Proof.
  intros Hj.
  destruct (get (Val j) (Field "apiKeys")) as [a|e] eqn:Ea;
    [|exfalso; eapply get_never_throws_on_value; eassumption].
  exists (config_entry (config_of j) b); cbn [tbind]; split.
  - unfold config_entry, config_of; cbn [apiKeys]; rewrite Ea.
    destruct (opt_get a (Field (key_field b))) eqn:E; [reflexivity|].
    exfalso; eapply opt_get_never_throws; exact E.
  - rewrite upper_env_name; unfold resolved_key, js_or.
    destruct (truthy (config_entry (config_of j) b)) eqn:E; rewrite ?E; cbn [negb andb];
      [reflexivity|destruct (truthy (env_val w (env_name b))); reflexivity].
Qed.

(** ** [getGitDiff], [getStagedFiles] and [createCommit] *)

Lemma list_ascii_app (a b : string) :
  list_ascii_of_string (a ++ b) = (list_ascii_of_string a ++ list_ascii_of_string b)%list.
Proof. induction a as [|c a IH]; simpl; [reflexivity|rewrite IH; reflexivity]. Qed.

Lemma drop_ws_nil (l : list ascii) : drop_ws l = [] <-> forallb is_ws l = true.
Proof.
  induction l as [|c l IH]; [split; reflexivity|].
  simpl; destruct (is_ws c); simpl; [exact IH|split; discriminate].
Qed.

Lemma forallb_rev_ws (l : list ascii) : forallb is_ws (rev l) = forallb is_ws l.
Proof.
  induction l as [|c l IH]; [reflexivity|].
  simpl; rewrite forallb_app, IH; simpl; rewrite andb_true_r, andb_comm; reflexivity.
Qed.

(** [trim] yields the empty string exactly on blank input. *)
Lemma trim_empty_iff (s : string) :
  trim s = EmptyString <-> forallb is_ws (list_ascii_of_string s) = true.
Proof.
  split; [|apply trim_blank].
  intros H; unfold trim, rtrim in H.
  apply (f_equal list_ascii_of_string) in H.
  rewrite list_ascii_of_string_of_list_ascii in H; cbn in H.
  destruct (drop_ws (rev (list_ascii_of_string (ltrim s)))) as [|c r] eqn:E.
  2: { simpl in H; destruct (rev r); discriminate. }
  apply drop_ws_nil in E; rewrite forallb_rev_ws, list_ltrim in E.
  destruct (drop_ws_head (list_ascii_of_string s)) as [H0|[c [r [H1 H2]]]].
  - apply drop_ws_nil; exact H0.
  - rewrite H1 in E; simpl in E; rewrite H2 in E; discriminate.
Qed.

Lemma ltrim_blank (s : string) :
  forallb is_ws (list_ascii_of_string s) = true -> ltrim s = EmptyString.
Proof.
  induction s as [|c s IH]; [reflexivity|].
  simpl; intros H; apply andb_prop in H as [Hc Hs]; rewrite Hc; auto.
Qed.

Lemma ltrim_app_ws (s : string) (c : ascii) :
  is_ws c = true ->
  ltrim (s ++ String c EmptyString) =
  if forallb is_ws (list_ascii_of_string s) then EmptyString else ltrim s ++ String c EmptyString.
Proof.
  intros Hc; induction s as [|x s IH]; [simpl; rewrite Hc; reflexivity|].
  simpl; destruct (is_ws x); simpl; [exact IH|reflexivity].
Qed.

Lemma rtrim_app_ws (t : string) (c : ascii) :
  is_ws c = true -> rtrim (t ++ String c EmptyString) = rtrim t.
Proof.
  intros Hc; unfold rtrim; rewrite list_ascii_app; simpl.
  rewrite rev_app_distr; simpl; rewrite Hc; reflexivity.
Qed.

(** A trailing newline does not change the trimmed text. *)
Lemma trim_app_nl (s : string) : trim (s ++ nl) = trim s.
Proof.
  unfold trim, nl; rewrite ltrim_app_ws by reflexivity.
  destruct (forallb is_ws (list_ascii_of_string s)) eqn:E.
  - rewrite ltrim_blank by exact E; reflexivity.
  - apply rtrim_app_ws; reflexivity.
Qed.

(** ** Facts about [split_on] *)

Lemma split_on_no_sep (c : ascii) (s f : string) :
  In f (split_on c s) -> ~ In c (list_ascii_of_string f).
Proof.
  revert f; induction s as [|x s IH]; intros f Hf.
  - destruct Hf as [<-|[]]; simpl; tauto.
  - simpl in Hf; destruct (Ascii.eqb x c) eqn:E.
    + destruct Hf as [<-|Hf]; [simpl; tauto|auto].
    + destruct (split_on c s) as [|first others] eqn:Es.
      * destruct Hf as [<-|[]]; simpl; intros [H|[]]; subst; rewrite Ascii.eqb_refl in E; discriminate.
      * destruct Hf as [<-|Hf].
        -- simpl; intros [H|H]; [subst; rewrite Ascii.eqb_refl in E; discriminate|].
           apply (IH first); [left; reflexivity|exact H].
        -- apply IH; right; exact Hf.
Qed.

Lemma split_on_single (c : ascii) (x : string) :
  ~ In c (list_ascii_of_string x) -> split_on c x = [x].
Proof.
  induction x as [|a x IH]; intros H; [reflexivity|].
  simpl in *; destruct (Ascii.eqb a c) eqn:E.
  - apply Ascii.eqb_eq in E; subst; tauto.
  - rewrite IH by tauto; reflexivity.
Qed.

Lemma split_on_app_sep (c : ascii) (x r : string) :
  ~ In c (list_ascii_of_string x) -> split_on c (x ++ String c r) = x :: split_on c r.
Proof.
  induction x as [|a x IH]; intros H; [simpl; rewrite Ascii.eqb_refl; reflexivity|].
  simpl in *; destruct (Ascii.eqb a c) eqn:E.
  - apply Ascii.eqb_eq in E; subst; tauto.
  - rewrite IH by tauto; reflexivity.
Qed.

Lemma split_concat (names : list string) :
  names <> [] -> Forall (fun f => ~ In newline (list_ascii_of_string f)) names ->
  split_on newline (String.concat nl names) = names.
Proof.
  induction names as [|x rest IH]; intros Hne Hall; [congruence|].
  inversion Hall as [|? ? Hx Hrest]; subst.
  destruct rest as [|y ys].
  - apply split_on_single; exact Hx.
  - change (String.concat nl (x :: y :: ys)) with (x ++ nl ++ String.concat nl (y :: ys)).
    change (x ++ nl ++ String.concat nl (y :: ys))
      with (x ++ String newline (String.concat nl (y :: ys))).
    rewrite split_on_app_sep by exact Hx; rewrite IH; [reflexivity|discriminate|exact Hrest].
Qed.

Lemma filter_keep_all {A} (p : A -> bool) (l : list A) :
  Forall (fun x => p x = true) l -> filter p l = l.
Proof. induction 1; simpl; [reflexivity|rewrite H, IHForall; reflexivity]. Qed.

(** ** Facts about the quote escaping *)

Lemma escape_quotes_app (a b : string) :
  escape_quotes (a ++ b) = escape_quotes a ++ escape_quotes b.
Proof.
  induction a as [|c a IH]; [reflexivity|].
  simpl; destruct (Ascii.eqb c quote); rewrite IH; reflexivity.
Qed.

Lemma escape_quotes_head (s r : string) : escape_quotes s <> String quote r.
Proof.
  destruct s as [|c s]; simpl; [discriminate|].
  destruct (Ascii.eqb c quote) eqn:E; [discriminate|].
  intros H; injection H as Hc _; subst; rewrite Ascii.eqb_refl in E; discriminate.
Qed.

Lemma truthy_str (s : string) : truthy (Val (JStr s)) = negb (String.eqb s EmptyString).
Proof. reflexivity. Qed.

(** [getGitDiff] returns either [null] or a non-empty, already trimmed text,
    the trimmed output of its [git diff] command; it returns [null] exactly
    when the command fails or prints only whitespace. *)
Theorem getGitDiff_trimmed_or_null (exec : shell) (branch : option string) :
  (forall d, getGitDiff exec branch = Some d ->
     d <> EmptyString /\ trim d = d /\
     exists out, exec (diff_command branch) = Some out /\ d = trim out) /\
  (getGitDiff exec branch = None <->
     exec (diff_command branch) = None \/
     exists out, exec (diff_command branch) = Some out /\
                 forallb is_ws (list_ascii_of_string out) = true).
Proof.
  unfold getGitDiff; cbv zeta.
  destruct (exec (diff_command branch)) as [out|] eqn:Ex.
  - rewrite truthy_str; destruct (String.eqb (trim out) EmptyString) eqn:E; cbn [negb].
    + apply String.eqb_eq, trim_empty_iff in E.
      split; [discriminate|]. split; [intros _; right; eauto|reflexivity].
    + apply String.eqb_neq in E. split.
      * intros d Hd; injection Hd as <-.
        split; [exact E|]. split; [apply trim_idem|eauto].
      * split; [discriminate|].
        intros [H|[out' [H1 H2]]]; [discriminate|].
        injection H1 as <-; apply trim_empty_iff in H2; contradiction.
  - split; [discriminate|]. split; [intros _; left; reflexivity|reflexivity].
Qed.

(** [getStagedFiles] returns [[]] when its command fails, and never returns
    an empty name or a name containing a newline. *)
Theorem getStagedFiles_names (exec : shell) :
  (exec staged_names_command = None -> getStagedFiles exec = []) /\
  (forall f, In f (getStagedFiles exec) ->
     f <> EmptyString /\ ~ In newline (list_ascii_of_string f)).
Proof.
  unfold getStagedFiles; destruct (exec staged_names_command) as [files|].
  - split; [discriminate|].
    intros f Hf; apply filter_In in Hf as [Hin Hp].
    rewrite truthy_str in Hp; apply negb_true_iff, String.eqb_neq in Hp.
    split; [exact Hp|eapply split_on_no_sep; exact Hin].
  - split; [reflexivity|intros f []].
Qed.

(** When git prints non-empty, newline-free names one per line, each line
    ending in a newline, [getStagedFiles] returns exactly those names, in
    order (provided the listing does not begin or end with whitespace). *)
Theorem getStagedFiles_roundtrip (exec : shell) (names : list string) :
  exec staged_names_command = Some (String.concat nl names ++ nl) ->
  Forall (fun f => f <> EmptyString /\ ~ In newline (list_ascii_of_string f)) names ->
  trim (String.concat nl names) = String.concat nl names ->
  getStagedFiles exec = names.
Proof.
  intros Hx Hall Ht; unfold getStagedFiles; rewrite Hx, trim_app_nl, Ht.
  destruct names as [|n ns]; [reflexivity|].
  rewrite split_concat; [|discriminate|].
  - apply filter_keep_all; eapply Forall_impl; [|exact Hall].
    intros f [Hf _]; rewrite truthy_str; apply negb_true_iff, String.eqb_neq; exact Hf.
  - eapply Forall_impl; [|exact Hall]; intros f [_ Hf]; exact Hf.
Qed.

Lemma getStagedFiles_roundtrip_witness :
  let names := ["src/a.js"; "README.md"] in
  let exec := fun (_ : string) => Some (String.concat nl names ++ nl) in
  Forall (fun f => f <> EmptyString /\ ~ In newline (list_ascii_of_string f)) names /\
  getStagedFiles exec = names.
Proof.
  intros names exec.
  assert (Hall : Forall (fun f => f <> EmptyString /\ ~ In newline (list_ascii_of_string f)) names).
  { repeat constructor; try discriminate; vm_compute; intuition discriminate. }
  split; [exact Hall|].
  apply (getStagedFiles_roundtrip exec names); [reflexivity|exact Hall|vm_compute; reflexivity].
Defined.

Lemma unescape_quotes_step (c c' : ascii) (r : string) :
  unescape_quotes (String c (String c' r)) =
  if Ascii.eqb c backslash && Ascii.eqb c' quote
  then String quote (unescape_quotes r)
  else String c (unescape_quotes (String c' r)).
Proof. reflexivity. Qed.

(** The escaping of [createCommit] loses nothing: removing the backslash in
    front of each escaped quote gives the message back; and every double
    quote of the escaped text directly follows a backslash. *)
Theorem createCommit_escaping_lossless (message : string) :
  unescape_quotes (escape_quotes message) = message /\
  forall i, String.get i (escape_quotes message) = Some quote ->
    exists j, i = S j /\ String.get j (escape_quotes message) = Some backslash.
Proof.
  split.
  - induction message as [|c r IH]; [reflexivity|].
    cbn [escape_quotes]; destruct (Ascii.eqb c quote) eqn:Eq.
    + apply Ascii.eqb_eq in Eq; subst c.
      cbn [unescape_quotes]; rewrite IH; reflexivity.
    + remember (escape_quotes r) as er eqn:Her; destruct er as [|c' rest'].
      * cbn in IH |- *; subst r; reflexivity.
      * rewrite unescape_quotes_step.
        destruct (Ascii.eqb c' quote) eqn:Ec'.
        -- apply Ascii.eqb_eq in Ec'; subst c'.
           exfalso; eapply escape_quotes_head; symmetry; exact Her.
        -- rewrite andb_false_r, IH; reflexivity.
  - induction message as [|c r IH]; intros i Hi; [destruct i; discriminate|].
    cbn [escape_quotes] in *; destruct (Ascii.eqb c quote) eqn:Eq.
    + destruct i as [|[|k]].
      * discriminate.
      * exists 0; split; reflexivity.
      * destruct (IH k Hi) as [j [-> Hj]]. exists (S (S j)); split; [reflexivity|exact Hj].
    + destruct i as [|k].
      * cbn in Hi; injection Hi as ->; discriminate.
      * destruct (IH k Hi) as [j [-> Hj]]. exists (S j); split; [reflexivity|exact Hj].
Qed.

(** Backslashes are not escaped: for a message ending in a backslash, the
    closing double quote of the [git commit -m "..."] command directly
    follows a backslash. *)
Theorem commit_command_trailing_backslash (message : string) :
  exists pre, commit_command (message ++ String backslash EmptyString) = pre ++ String backslash dq.
Proof.
  exists ("git commit -m " ++ dq ++ escape_quotes message).
  unfold commit_command; rewrite escape_quotes_app.
  change (escape_quotes (String backslash EmptyString)) with (String backslash EmptyString).
  rewrite <- !string_app_assoc; reflexivity.
Qed.

(** ** [main] *)

Lemma get_ok_not_null (j : json) (k : key) (x : jsval) : get (Val j) k = Ret x -> j <> JNull.
Proof. intros H ->; discriminate. Qed.

Lemma cli_net_calls_dispatch (t : list event) (c1 c2 : string) :
  cli_net_calls (Exec c1 :: Exec c2 :: map Dispatch t) = net_calls t.
Proof.
  cbn [cli_net_calls]; induction t as [|ev t IH]; [reflexivity|].
  destruct ev; cbn [map cli_net_calls net_calls]; rewrite IH; reflexivity.
Qed.

Lemma getGitDiff_some (exec : shell) (branch : option string) (out : string) :
  exec (diff_command branch) = Some out ->
  forallb is_ws (list_ascii_of_string out) = false ->
  getGitDiff exec branch = Some (trim out).
Proof.
  intros Hx Hb; unfold getGitDiff; rewrite Hx; cbv zeta; rewrite truthy_str.
  destruct (String.eqb (trim out) EmptyString) eqn:E; [|reflexivity].
  apply String.eqb_eq, trim_empty_iff in E; congruence.
Qed.

Lemma getGitDiff_none (exec : shell) (branch : option string) :
  (exec (diff_command branch) = None \/
   exists out, exec (diff_command branch) = Some out /\
               forallb is_ws (list_ascii_of_string out) = true) ->
  getGitDiff exec branch = None.
Proof.
  unfold getGitDiff; intros [H|[out [H1 H2]]]; rewrite ?H, ?H1; [reflexivity|].
  cbv zeta; rewrite truthy_str, (proj2 (trim_empty_iff out) H2); reflexivity.
Qed.

(** [main] past the provider check, on a backend [b]. *)
Lemma main_after_provider (w : world) (exec : shell) (st : style) (options : cli_options)
    (file : config_file) (dp : jsval) (b : backend) :
  get (Val (snd (loadConfig file))) (Field "defaultProvider") = Ret dp ->
  provider_of (select_provider (opt_provider options) dp) = Some b ->
  main_generate w exec st options file =
  if negb (truthy (resolved_key w (config_of (snd (loadConfig file))) b))
  then ([], Exit1 (ExitKeyNotConfigured (provider_name b)))
  else
    match getGitDiff exec (opt_branch options) with
    | None => ([Exec (diff_command (opt_branch options))], Exit1 ExitNoChanges)
    | Some diff =>
        let '(t, r) := generateCommitMessage w st diff (provider_name b)
                         (config_of (snd (loadConfig file))) in
        let trace := Exec (diff_command (opt_branch options)) :: Exec staged_names_command
                     :: map Dispatch t in
        match r with
        | Throw e => (trace, Exit1 (ExitError e))
        | Ret commitMessage =>
            if negb (truthy (Val (JStr commitMessage)))
            then (trace, Exit1 ExitGenerationFailed)
            else (trace, MessageReady commitMessage)
        end
    end.
Proof.
  intros Hdp Hb.
  destruct (cli_key_check w (snd (loadConfig file)) b (get_ok_not_null _ _ _ Hdp))
    as [fc [E1 E2]].
  unfold main_generate; cbv zeta; rewrite Hdp; cbv beta iota; rewrite Hb; cbv beta iota.
  rewrite E1; cbv beta iota; rewrite E2; reflexivity.
Qed.




(** When [main] gets past its checks and git prints a non-blank diff, the
    run makes exactly one network request: to the selected backend, with
    the resolved key, and with the prompt built from the trimmed, bounded
    diff. *)
Theorem main_sends_trimmed_diff (w : world) (exec : shell) (st : style) (options : cli_options)
    (file : config_file) (dp : jsval) (b : backend) (out : string) :
  get (Val (snd (loadConfig file))) (Field "defaultProvider") = Ret dp ->
  provider_of (select_provider (opt_provider options) dp) = Some b ->
  truthy (resolved_key w (config_of (snd (loadConfig file))) b) = true ->
  exec (diff_command (opt_branch options)) = Some out ->
  forallb is_ws (list_ascii_of_string out) = false ->
  cli_net_calls (fst (main_generate w exec st options file)) =
    [(b, resolved_key w (config_of (snd (loadConfig file))) b,
      buildPrompt st (fst (bound (trim out) (provider_name b))))].
Proof.
  intros Hdp Hb Hk Hx Hblank.
  rewrite (main_after_provider w exec st options file dp b Hdp Hb), Hk; cbn [negb]; cbv iota.
  rewrite (getGitDiff_some exec _ out Hx Hblank).
  destruct (generateCommitMessage w st (trim out) (provider_name b)
              (config_of (snd (loadConfig file)))) as [t r] eqn:Eg.
  transitivity (net_calls t).
  { destruct r as [m|e]; [destruct (negb _)|]; apply cli_net_calls_dispatch. }
  apply (f_equal fst) in Eg; rewrite dispatch_known in Eg; cbn [fst] in Eg; rewrite <- Eg.
  rewrite net_calls_app, net_calls_advisory, generateWith_key_trace by exact Hk.
  reflexivity.
Qed.

Lemma main_sends_trimmed_diff_witness :
  cli_net_calls (fst (main_generate (cli_world "feat: x") cli_shell Thorough no_flags NoConfigFile)) =
    [(Claude, Val (JStr "sk-ant"),
      buildPrompt Thorough (fst (bound (trim ("diff --git a/x b/x" ++ nl)) "claude")))].
Proof.
  apply (main_sends_trimmed_diff (cli_world "feat: x") cli_shell Thorough no_flags NoConfigFile
           (Val (JStr "claude")) Claude ("diff --git a/x b/x" ++ nl));
    vm_compute; reflexivity.
Defined.

(** When the [git diff] command fails or prints only whitespace, [main]
    stops with [No changes found] after that single command, before any
    network request. *)
Theorem main_stops_without_changes (w : world) (exec : shell) (st : style)
    (options : cli_options) (file : config_file) (dp : jsval) (b : backend) :
  get (Val (snd (loadConfig file))) (Field "defaultProvider") = Ret dp ->
  provider_of (select_provider (opt_provider options) dp) = Some b ->
  truthy (resolved_key w (config_of (snd (loadConfig file))) b) = true ->
  (exec (diff_command (opt_branch options)) = None \/
   exists out, exec (diff_command (opt_branch options)) = Some out /\
               forallb is_ws (list_ascii_of_string out) = true) ->
  main_generate w exec st options file =
    ([Exec (diff_command (opt_branch options))], Exit1 ExitNoChanges).
Proof.
  intros Hdp Hb Hk Hx.
  rewrite (main_after_provider w exec st options file dp b Hdp Hb), Hk; cbn [negb]; cbv iota.
  rewrite (getGitDiff_none exec _ Hx); reflexivity.
Qed.

Lemma main_stops_without_changes_witness :
  main_generate (cli_world "feat: x") (fun _ => Some (String " " nl)) Thorough no_flags NoConfigFile =
    ([Exec "git diff --staged"], Exit1 ExitNoChanges).
Proof.
  apply (main_stops_without_changes (cli_world "feat: x") (fun _ => Some (String " " nl)) Thorough
           no_flags NoConfigFile (Val (JStr "claude")) Claude); try reflexivity.
  right; exists (String " " nl); split; reflexivity.
Defined.


(** With a key, the dispatch never throws [API key not found]. *)
Lemma dispatch_ret_has_key (w : world) (st : style) (diff : string) (b : backend) (config : config) (m : string) :
  snd (generateCommitMessage w st diff (provider_name b) config) = Ret m ->
  truthy (resolved_key w config b) = true.
Proof.
  intros H; destruct (truthy (resolved_key w config b)) eqn:Hk; [reflexivity|].
  rewrite dispatch_known in H; cbn [snd] in H; rewrite generateWith_nokey in H by exact Hk.
  discriminate.
Qed.

(** A reply whose text trims to the empty string, which the dispatch returns
    as a success, makes [main] stop with [Failed to generate commit
    message]. *)
Theorem main_blank_reply_fails (w : world) (exec : shell) (st : style) (options : cli_options)
    (file : config_file) (dp : jsval) (b : backend) (diff : string) :
  get (Val (snd (loadConfig file))) (Field "defaultProvider") = Ret dp ->
  provider_of (select_provider (opt_provider options) dp) = Some b ->
  getGitDiff exec (opt_branch options) = Some diff ->
  snd (generateCommitMessage w st diff (provider_name b) (config_of (snd (loadConfig file)))) =
    Ret EmptyString ->
  snd (main_generate w exec st options file) = Exit1 ExitGenerationFailed.
Proof.
  intros Hdp Hb Hd Hr.
  rewrite (main_after_provider w exec st options file dp b Hdp Hb).
  rewrite (dispatch_ret_has_key _ _ _ _ _ _ Hr); cbn [negb]; cbv iota.
  rewrite Hd.
  destruct (generateCommitMessage w st diff (provider_name b) (config_of (snd (loadConfig file))))
    as [t r]; cbn [snd] in Hr; subst r; reflexivity.
Qed.

Lemma main_blank_reply_fails_witness :
  snd (main_generate (cli_world "  ") cli_shell Thorough no_flags NoConfigFile) =
    Exit1 ExitGenerationFailed.
Proof.
  apply (main_blank_reply_fails (cli_world "  ") cli_shell Thorough no_flags NoConfigFile
           (Val (JStr "claude")) Claude (trim ("diff --git a/x b/x" ++ nl)));
    vm_compute; reflexivity.
Defined.

(** A message that [main] shows to the user is non-empty and has no
    surrounding whitespace. *)
Theorem main_message_nonblank (w : world) (exec : shell) (st : style) (options : cli_options)
    (file : config_file) (m : string) :
  snd (main_generate w exec st options file) = MessageReady m ->
  m <> EmptyString /\ trim m = m.
Proof.
  destruct (get (Val (snd (loadConfig file))) (Field "defaultProvider")) as [dp|e'] eqn:Edp.
  2: { unfold main_generate; cbv zeta; rewrite Edp; discriminate. }
  destruct (provider_of (select_provider (opt_provider options) dp)) as [b|] eqn:Hb.
  2: { unfold main_generate; cbv zeta; rewrite Edp; cbv beta iota; rewrite Hb; discriminate. }
  rewrite (main_after_provider w exec st options file dp b Edp Hb).
  destruct (negb _); [discriminate|cbv iota].
  destruct (getGitDiff exec (opt_branch options)) as [diff|]; [|discriminate].
  destruct (generateCommitMessage w st diff (provider_name b) (config_of (snd (loadConfig file))))
    as [t r] eqn:Eg.
  destruct r as [m'|e]; [|discriminate].
  destruct (negb (truthy (Val (JStr m')))) eqn:Hm; [discriminate|].
  intros H; injection H as <-.
  rewrite truthy_str in Hm; apply negb_false_iff, negb_false_iff in Hm.
  split; [apply String.eqb_neq; destruct (String.eqb m' EmptyString); [discriminate|reflexivity]|].
  apply (f_equal snd) in Eg; rewrite dispatch_known in Eg; cbn [snd] in Eg.
  destruct (proj1 (generateWith_shape w b st _ _) m' Eg) as [x ->].
  apply trim_idem.
Qed.

(** ** [getApiKey], [loadConfig] and [setProvider] *)

(** [getApiKey] on [claude], [openai] or [gemini] returns the key the dispatch
    sends with its request, or [null] when there is none; it returns [null]
    exactly when the dispatch throws [<Vendor> API key not found]. *)
Theorem getApiKey_matches_dispatch (w : world) (st : style) (diff : string) (b : backend) (config : config) :
  getApiKey w (provider_name b) config =
    Ret (if truthy (resolved_key w config b) then resolved_key w config b else Val JNull) /\
  (getApiKey w (provider_name b) config = Ret (Val JNull) <->
   snd (generateCommitMessage w st diff (provider_name b) config) = Throw (ApiKeyNotFound b)).
Proof.
  rewrite getApiKey_known, dispatch_key_not_found; split; [reflexivity|].
  destruct (truthy (resolved_key w config b)) eqn:Hk; [|split; reflexivity].
  split; [|discriminate].
  intros H; injection H as H; rewrite H in Hk; discriminate.
Qed.






(** ** Facts about [set_field] *)

Lemma lookup_field_app_single (k k' : string) (v : json) (fs : list (string * json)) :
  lookup_field k (fs ++ [(k', v)]) = if String.eqb k k' then Val v else lookup_field k fs.
Proof.
  induction fs as [|[k0 v0] rest IH]; [reflexivity|].
  cbn [app lookup_field]; rewrite IH.
  destruct (String.eqb k k'); [reflexivity|].
  destruct (lookup_field k rest); reflexivity.
Qed.

Lemma lookup_field_set_same (k : string) (v : json) (fs : list (string * json)) :
  lookup_field k (map (fun kv => if String.eqb k (fst kv) then (fst kv, v) else kv) fs) =
  if existsb (fun kv => String.eqb k (fst kv)) fs then Val v else Undef.
Proof.
  induction fs as [|[k1 v1] rest IH]; [reflexivity|].
  cbn [map existsb fst].
  destruct (String.eqb k k1) eqn:E; cbn [lookup_field orb]; rewrite IH;
    destruct (existsb _ rest); rewrite ?E; reflexivity.
Qed.

Lemma lookup_field_set_other (k k' : string) (v : json) (fs : list (string * json)) :
  k <> k' ->
  lookup_field k' (map (fun kv => if String.eqb k (fst kv) then (fst kv, v) else kv) fs) =
  lookup_field k' fs.
Proof.
  intros Hne; induction fs as [|[k1 v1] rest IH]; [reflexivity|].
  cbn [map fst].
  destruct (String.eqb k k1) eqn:E; cbn [lookup_field]; rewrite IH; [|reflexivity].
  apply String.eqb_eq in E; subst k1.
  destruct (String.eqb k' k) eqn:E'; [apply String.eqb_eq in E'; congruence|].
  reflexivity.
Qed.

Lemma lookup_set_field (k k' : string) (v : json) (fs : list (string * json)) :
  lookup_field k' (set_field k v fs) = if String.eqb k' k then Val v else lookup_field k' fs.
Proof.
  unfold set_field.
  destruct (existsb (fun kv => String.eqb k (fst kv)) fs) eqn:Ex.
  - destruct (String.eqb k' k) eqn:E.
    + apply String.eqb_eq in E; subst k'; rewrite lookup_field_set_same, Ex; reflexivity.
    + apply lookup_field_set_other; intros ->; rewrite String.eqb_refl in E; discriminate.
  - apply lookup_field_app_single.
Qed.

Lemma valid_provider_backend (provider : string) :
  existsb (String.eqb provider) valid_providers = true ->
  exists b, provider_name b = provider.
Proof.
  cbn [existsb valid_providers].
  destruct (String.eqb provider "claude") eqn:E1;
    [apply String.eqb_eq in E1; subst; exists Claude; reflexivity|].
  destruct (String.eqb provider "openai") eqn:E2;
    [apply String.eqb_eq in E2; subst; exists OpenAI; reflexivity|].
  destruct (String.eqb provider "gemini") eqn:E3;
    [apply String.eqb_eq in E3; subst; exists Gemini; reflexivity|].
  discriminate.
Qed.

Lemma select_named_provider (b : backend) :
  provider_of (select_provider None (Val (JStr (provider_name b)))) = Some b.
Proof. destruct b; reflexivity. Qed.

(** When the loaded config is an object, [setProvider] saves it with
    [defaultProvider] set to the chosen name and every other property
    unchanged, and a later run without [--provider] selects that backend. *)
Theorem setProvider_records_choice (write : json -> option string) (file : config_file)
    (provider : string) (fs : list (string * json)) (saved : json) :
  snd (loadConfig file) = JObj fs ->
  setProvider write file provider = SetSaved saved ->
  get (Val saved) (Field "defaultProvider") = Ret (Val (JStr provider)) /\
  (forall k, k <> "defaultProvider" -> get (Val saved) (Field k) = get (Val (JObj fs)) (Field k)) /\
  exists b, provider_name b = provider /\
            provider_of (select_provider None (Val (JStr provider))) = Some b.
Proof.
  intros Hl Hs; unfold setProvider in Hs.
  destruct (existsb (String.eqb provider) valid_providers) eqn:Ev; cbn [negb] in Hs; [|discriminate].
  rewrite Hl in Hs; cbn [assign_defaultProvider] in Hs.
  destruct (saveConfig write _); [|discriminate]. injection Hs as <-.
  split; [|split].
  - cbn [get key_name]; rewrite lookup_set_field, String.eqb_refl; reflexivity.
  - intros k Hk; cbn [get key_name]; rewrite lookup_set_field.
    apply String.eqb_neq in Hk; rewrite Hk; reflexivity.
  - destruct (valid_provider_backend provider Ev) as [b <-].
    exists b; split; [reflexivity|apply select_named_provider].
Qed.

Lemma setProvider_records_choice_witness :
  let fs := match snd (loadConfig NoConfigFile) with JObj fs => fs | _ => [] end in
  let saved := match setProvider (fun _ => None) NoConfigFile "gemini" with
               | SetSaved j => j
               | _ => JNull
               end in
  get (Val saved) (Field "defaultProvider") = Ret (Val (JStr "gemini")).
Proof.
  intros fs saved.
  exact (proj1 (setProvider_records_choice (fun _ => None) NoConfigFile "gemini" fs saved
                  eq_refl eq_refl)).
Defined.

(** When the config file holds JSON that is not an object, [setProvider]
    does not record the choice: on [null] it throws, otherwise it writes
    the file back unchanged, still without a [defaultProvider]. *)
Theorem setProvider_non_object_not_recorded (write : json -> option string)
    (file : config_file) (provider : string) :
  In provider valid_providers ->
  (forall j, write j = None) ->
  (forall fs, snd (loadConfig file) <> JObj fs) ->
  (snd (loadConfig file) = JNull -> exists e, setProvider write file provider = SetFailed e) /\
  (snd (loadConfig file) <> JNull ->
   setProvider write file provider = SetSaved (snd (loadConfig file)) /\
   get (Val (snd (loadConfig file))) (Field "defaultProvider") = Ret Undef).
Proof.
  intros Hv Hw Hno.
  assert (Ev : existsb (String.eqb provider) valid_providers = true).
  { apply existsb_exists; exists provider; split; [exact Hv|apply String.eqb_refl]. }
  unfold setProvider; rewrite Ev; cbn [negb].
  destruct (snd (loadConfig file)) as [| | | | |fs] eqn:Hl;
    [| | | | |exfalso; exact (Hno fs eq_refl)];
    (split; [intros H; try discriminate|intros Hn; try (exfalso; apply Hn; reflexivity)]);
    cbn [assign_defaultProvider]; unfold saveConfig; rewrite ?Hw; eauto.
Qed.

Lemma setProvider_non_object_not_recorded_witness :
  setProvider (fun _ => None) (ConfigFile (Ret (JArr []))) "openai" = SetSaved (JArr []).
Proof.
  refine (proj1 (proj2 (setProvider_non_object_not_recorded (fun _ => None)
                          (ConfigFile (Ret (JArr []))) "openai" _ _ _) _)).
  - cbn; tauto.
  - reflexivity.
  - intros fs; discriminate.
  - discriminate.
Defined.

(** ** [setup] *)

Lemma val_as_json (x : jsval) : truthy x = true -> Val (as_json x) = x.
Proof. destruct x; [discriminate|reflexivity]. Qed.

Lemma truthy_or_right (a v d : jsval) :
  truthy v = true -> truthy (js_or (js_or a v) d) = true /\
                     js_or (js_or a v) d = js_or a v.
Proof.
  intros Hv.
  assert (Hx : truthy (js_or a v) = true)
    by (unfold js_or; destruct (truthy a) eqn:Ha; [exact Ha|exact Hv]).
  set (x := js_or a v) in *; unfold js_or; rewrite Hx; split; [exact Hx|reflexivity].
Qed.

(** The value [setup] saves, when it saves one. *)
Lemma setup_saved (write : json -> option string) (file : config_file)
    (answers : setup_answers) (saved : json) :
  setup write file answers = SetSaved saved ->
  exists a,
    get (Val (snd (loadConfig file))) (Field "apiKeys") = Ret a /\
    let pick (answer : option string) (name : string) : json :=
      as_json (js_or (js_or (option_string answer)
                            (match opt_get a (Field name) with Ret v => v | Throw _ => Undef end))
                     (Val (JStr EmptyString))) in
    saved =
      JObj [("defaultProvider", JStr (ans_defaultProvider answers));
            ("apiKeys", JObj [("anthropic", pick (ans_anthropicKey answers) "anthropic");
                              ("openai", pick (ans_openaiKey answers) "openai");
                              ("gemini", pick (ans_geminiKey answers) "gemini")]);
            ("autoCommit", JBool (ans_autoCommit answers))].
Proof.
  unfold setup; cbv zeta.
  destruct (get (Val (snd (loadConfig file))) (Field "defaultProvider")) as [dp|e] eqn:Edp;
    [|discriminate].
  destruct (get (Val (snd (loadConfig file))) (Field "apiKeys")) as [a|e] eqn:Ea;
    [|exfalso; eapply get_never_throws_on_value; [eapply get_ok_not_null; exact Edp|exact Ea]].
  cbn [tbind]; destruct (saveConfig _ _); [|discriminate].
  intros H; injection H as <-; exists a; split; reflexivity.
Qed.

Lemma config_entry_saved (a : jsval) (b : backend) (answers : setup_answers) (rest : list (string * json)) :
  let pick (answer : option string) (name : string) : json :=
    as_json (js_or (js_or (option_string answer)
                          (match opt_get a (Field name) with Ret v => v | Throw _ => Undef end))
                   (Val (JStr EmptyString))) in
  config_entry (config_of
    (JObj (("defaultProvider", JStr (ans_defaultProvider answers)) ::
           ("apiKeys", JObj [("anthropic", pick (ans_anthropicKey answers) "anthropic");
                             ("openai", pick (ans_openaiKey answers) "openai");
                             ("gemini", pick (ans_geminiKey answers) "gemini")]) ::
           rest))) b =
  match lookup_field "apiKeys" rest with
  | Undef => Val (pick (answer_for answers b) (key_field b))
  | found => match opt_get found (Field (key_field b)) with Ret v => v | Throw _ => Undef end
  end.
Proof.
  intros pick; unfold config_entry, config_of; cbn [apiKeys get key_name lookup_field].
  destruct (lookup_field "apiKeys" rest); [|reflexivity].
  destruct b; reflexivity.
Qed.

(** [setup] never drops a configured key: a key that was set stays set, and
    a non-empty typed answer replaces it. *)
Theorem setup_keeps_configured_keys (write : json -> option string) (file : config_file)
    (answers : setup_answers) (saved : json) (b : backend) :
  setup write file answers = SetSaved saved ->
  (truthy (config_entry (config_of (snd (loadConfig file))) b) = true ->
   truthy (config_entry (config_of saved) b) = true) /\
  (forall k, answer_for answers b = Some k -> k <> EmptyString ->
   config_entry (config_of saved) b = Val (JStr k)).
Proof.
  intros Hs; destruct (setup_saved write file answers saved Hs) as [a [Ea ->]].
  rewrite (config_entry_saved a b answers [("autoCommit", JBool (ans_autoCommit answers))]).
  cbn [lookup_field].
  assert (Hold : config_entry (config_of (snd (loadConfig file))) b =
                 match opt_get a (Field (key_field b)) with Ret v => v | Throw _ => Undef end).
  { unfold config_entry, config_of; cbn [apiKeys]; rewrite Ea; reflexivity. }
  rewrite Hold; split.
  - intros Hv; destruct (truthy_or_right (option_string (answer_for answers b)) _
                           (Val (JStr EmptyString)) Hv) as [Ht _].
    rewrite val_as_json by exact Ht; exact Ht.
  - intros k Hk Hne; rewrite Hk; cbn [option_string].
    assert (Htk : truthy (Val (JStr k)) = true)
      by (rewrite truthy_str; apply negb_true_iff, String.eqb_neq; exact Hne).
    unfold js_or at 2; rewrite Htk; unfold js_or; rewrite Htk; reflexivity.
Qed.

Lemma setup_keeps_configured_keys_witness :
  let answers := mkAnswers "claude" (Some "sk-new") None None false in
  let saved := match setup (fun _ => None) NoConfigFile answers with
               | SetSaved j => j
               | _ => JNull
               end in
  config_entry (config_of saved) Claude = Val (JStr "sk-new").
Proof.
  intros answers saved.
  apply (proj2 (setup_keeps_configured_keys (fun _ => None) NoConfigFile answers saved Claude
                  eq_refl) "sk-new"); [reflexivity|discriminate].
Defined.

(** After [setup] saved a non-empty key for the default provider it chose,
    the next run without [--provider] passes both checks of [main]. *)
Theorem setup_enables_next_run (write : json -> option string) (file : config_file)
    (answers : setup_answers) (saved : json) (b : backend) (k : string)
    (w : world) (exec : shell) (st : style) (branch : option string) :
  setup write file answers = SetSaved saved ->
  ans_defaultProvider answers = provider_name b ->
  answer_for answers b = Some k -> k <> EmptyString ->
  match snd (main_generate w exec st (mkOptions None branch) (ConfigFile (Ret saved))) with
  | Exit1 (ExitUnknownProvider _) | Exit1 (ExitKeyNotConfigured _) => False
  | _ => True
  end.
Proof.
  intros Hs Hdp Hk Hne.
  pose proof (proj2 (setup_keeps_configured_keys write file answers saved b Hs) k Hk Hne) as He.
  destruct (setup_saved write file answers saved Hs) as [a [Ea Hsv]].
  assert (Hget : get (Val (snd (loadConfig (ConfigFile (Ret saved))))) (Field "defaultProvider") =
                 Ret (Val (JStr (provider_name b)))).
  { cbn [loadConfig snd]; rewrite Hsv, <- Hdp; reflexivity. }
  assert (Hkey : truthy (resolved_key w (config_of (snd (loadConfig (ConfigFile (Ret saved))))) b) = true).
  { cbn [loadConfig snd]; unfold resolved_key; rewrite He; unfold js_or.
    apply String.eqb_neq in Hne; cbn [truthy]; rewrite Hne; cbn [negb truthy]; rewrite Hne; reflexivity. }
  rewrite (main_after_provider w exec st (mkOptions None branch) (ConfigFile (Ret saved))
             (Val (JStr (provider_name b))) b Hget (select_named_provider b)), Hkey.
  cbn [negb]; cbv iota.
  destruct (getGitDiff exec (opt_branch (mkOptions None branch))) as [diff|]; [|exact I].
  destruct (generateCommitMessage _ _ _ _ _) as [t [m|e]]; [destruct (negb _)|]; exact I.
Qed.

Lemma setup_enables_next_run_witness :
  let answers := mkAnswers "openai" None (Some "sk-openai") None false in
  let saved := match setup (fun _ => None) NoConfigFile answers with
               | SetSaved j => j
               | _ => JNull
               end in
  match snd (main_generate (stub_world (fun _ => None) JNull JNull (mkResponse 200 (Ret JNull)))
              cli_shell Thorough (mkOptions None None) (ConfigFile (Ret saved))) with
  | Exit1 (ExitUnknownProvider _) | Exit1 (ExitKeyNotConfigured _) => False
  | _ => True
  end.
Proof.
  intros answers saved.
  apply (setup_enables_next_run (fun _ => None) NoConfigFile answers saved OpenAI "sk-openai");
    [reflexivity|reflexivity|reflexivity|discriminate].
Defined.

Lemma main_message_nonblank_witness :
  "feat: add x" <> EmptyString /\ trim "feat: add x" = "feat: add x".
Proof.
  apply (main_message_nonblank (cli_world "feat: add x") cli_shell Thorough no_flags NoConfigFile).
  vm_compute; reflexivity.
Defined.
